(** * BotezGambitDetector: the move tokenizer and the blunder detector

    A shallow embedding of [BotezGambits._get_moves_list] and
    [BotezGambits._get_botez_gambit] of [chess.py], with the properties of
    the design document stated over it, and of the functions around
    them: [_get_data], [_filter_games], [_register_games],
    [_collect_games] and [_collect_botez_gambits], the server being a
    parameter.

    Text is a [string] whose characters are code points below 256 (the
    exports of the chess server are plain ASCII).  On that range the
    classes of Python's [re] and [str] are: [\s] and [str.isspace] the
    code points 9-13, 28-32, 133 and 160; [\d] the digits 0-9; [.] every
    character but the line feed. *)

From Stdlib Require Import Strings.String Strings.Ascii.
From Stdlib Require Import Lists.List Arith.Arith Arith.PeanoNat Bool.Bool.
From Stdlib Require Import micromega.Lia.
Import ListNotations.

Local Open Scope string_scope.
Local Open Scope list_scope.

(* ================================================================== *)
(** ** Python's string primitives *)

Module PyStr.

Definition nl : ascii := "010"%char.

Definition is_nl (c : ascii) : bool := Ascii.eqb c nl.

(** [\s] of a [str] pattern and [str.isspace], below code point 256. *)
Definition is_space (c : ascii) : bool :=
  let n := nat_of_ascii c in
  (((9 <=? n) && (n <=? 13)) || ((28 <=? n) && (n <=? 32))
   || (n =? 133) || (n =? 160))%nat.

(** [\d] of a [str] pattern, below code point 256. *)
Definition is_digit (c : ascii) : bool :=
  let n := nat_of_ascii c in ((48 <=? n) && (n <=? 57))%nat.

(** [needle in hay]: [needle] occurs in [hay] as a substring. *)
Fixpoint contains (needle hay : string) : bool :=
  prefix needle hay ||
  match hay with
  | EmptyString => false
  | String _ hay' => contains needle hay'
  end.

(** [s.startswith(p)]. *)
Definition startswith (s p : string) : bool := prefix p s.

(** A pattern is given by its matcher: the length of the match that
    starts at the head of the text, if there is one.  None of the
    patterns of [chess.py] matches the empty string. *)
Definition matcher := string -> option nat.

Section Scan.
Variable m : matcher.

(** [re.sub(pattern, repl, s)] and, for a literal pattern,
    [s.replace(old, new)]: the matches are found left to right and do
    not overlap; [skip] counts the characters of the current match
    that are still to be passed over. *)
Fixpoint sub_go (repl s : string) (skip : nat) : string :=
  match s with
  | EmptyString => EmptyString
  | String c s' =>
      match skip with
      | S k => sub_go repl s' k
      | O =>
          match m s with
          | Some (S n) => repl ++ sub_go repl s' n
          | _ => String c (sub_go repl s' 0)
          end
      end
  end.

(** [re.split(pattern, s)] and [s.split(sep)]: the pieces between the
    matches, the head of the result being the piece under way. *)
Fixpoint split_go (s : string) (skip : nat) : list string :=
  match s with
  | EmptyString => [EmptyString]
  | String c s' =>
      match skip with
      | S k => split_go s' k
      | O =>
          match m s with
          | Some (S n) => EmptyString :: split_go s' n
          | _ =>
              match split_go s' 0 with
              | t :: ts => String c t :: ts
              | [] => [String c EmptyString]
              end
          end
      end
  end.
End Scan.

(** The matcher of a literal (non-empty) pattern. *)
Definition match_lit (old : string) : matcher :=
  fun s => if prefix old s then Some (String.length old) else None.

Definition str_replace (old new s : string) : string :=
  sub_go (match_lit old) new s 0.

Definition str_split (sep s : string) : list string :=
  split_go (match_lit sep) s 0.

Definition re_sub (m : matcher) (repl s : string) : string :=
  sub_go m repl s 0.

Definition re_split (m : matcher) (s : string) : list string :=
  split_go m s 0.

(** [s.strip(chars)] and [s.strip()], the set of characters as a
    predicate. *)
Fixpoint lstrip (p : ascii -> bool) (s : string) : string :=
  match s with
  | EmptyString => EmptyString
  | String c s' => if p c then lstrip p s' else s
  end.

Fixpoint rstrip (p : ascii -> bool) (s : string) : string :=
  match s with
  | EmptyString => EmptyString
  | String c s' =>
      match rstrip p s' with
      | EmptyString => if p c then EmptyString else String c EmptyString
      | r => String c r
      end
  end.

Definition strip (p : ascii -> bool) (s : string) : string :=
  rstrip p (lstrip p s).

End PyStr.

(* ================================================================== *)
(** ** The move tokenizer: [_get_moves_list] *)

Module Tokenizer.
Import PyStr.

(** [r'\{.+?\}']: an opening brace, one or more characters other than a
    line feed, as few as possible, and a closing brace. *)
Fixpoint lazy_close (s : string) : option nat :=
  match s with
  | EmptyString => None
  | String c s' =>
      if Ascii.eqb c "}" then Some 1
      else if is_nl c then None
      else option_map S (lazy_close s')
  end.

Definition match_annotation : matcher := fun s =>
  match s with
  | String "{" (String c s') =>
      if is_nl c then None else option_map (fun n => 2 + n) (lazy_close s')
  | _ => None
  end.

(** [r'\s(\s)+?']: a whitespace character and one or more further ones,
    as few as possible, which is one. *)
Definition match_ws_pair : matcher := fun s =>
  match s with
  | String a (String b _) => if is_space a && is_space b then Some 2 else None
  | _ => None
  end.

(** The leading digits of a text: how many, and what follows them. *)
Fixpoint span_digits (s : string) : nat * string :=
  match s with
  | String c s' =>
      if is_digit c then let (k, r) := span_digits s' in (S k, r)
      else (0, s)
  | EmptyString => (0, EmptyString)
  end.

(** [\d+\.\s?]: the digits are taken greedily, and giving one back
    cannot help, a digit not being a period. *)
Definition match_number_dot (s : string) : option nat :=
  match span_digits s with
  | (S k, String "." r) =>
      Some (S k + 1 +
            match r with
            | String c _ => if is_space c then 1 else 0
            | EmptyString => 0
            end)
  | _ => None
  end.

(** [r'\s?\d+\.\s?']: a leading whitespace character is taken when there
    is one, and leaving it cannot help, a whitespace not being a
    digit. *)
Definition match_move_number : matcher := fun s =>
  match s with
  | String c s' =>
      if is_space c then option_map S (match_number_dot s')
      else match_number_dot s
  | EmptyString => None
  end.

Inductive exn : Type := IndexError.

Definition blank_line : string := String nl (String nl EmptyString).

(** [_get_moves_list(self, pgn)]; [inl IndexError] is the exception of
    [pgn.split('\n\n')[1]] on a list of one element. *)
Definition _get_moves_list (pgn : string) : exn + list string :=
  match nth_error (str_split blank_line pgn) 1 with
  | None => inl IndexError
  | Some moves =>
      let moves := re_sub match_annotation "" moves in
      let moves := str_replace "..." "." moves in
      let moves := str_replace "1-0" "" moves in
      let moves := str_replace "0-1" "" moves in
      let moves := str_replace "1/2-1/2" "" moves in
      let moves := strip is_space (strip is_nl moves) in
      let moves := re_sub match_ws_pair " " moves in
      let moves := re_split match_move_number moves in
      inr (tl moves)
  end.

End Tokenizer.

(* ================================================================== *)
(** ** The blunder detector: [_get_botez_gambit] *)

Module Detector.
Import PyStr.

(** The keys ['white'] and ['black'] of [status] and [flip_color]. *)
Inductive color : Type := white | black.

Definition flip_color (c : color) : color :=
  match c with
  | white => black
  | black => white
  end.

(** The dictionary [status]: one square per colour under the keys
    ['white'] and ['black'], and the colour to move under ['to_move']. *)
Record status : Type := mkStatus {
  white_sq : string;
  black_sq : string;
  to_move : color
}.

(** [status[c]] *)
Definition square (st : status) (c : color) : string :=
  match c with
  | white => white_sq st
  | black => black_sq st
  end.

(** [status[c] = sq] *)
Definition set_square (st : status) (c : color) (sq : string) : status :=
  match c with
  | white => mkStatus sq (black_sq st) (to_move st)
  | black => mkStatus (white_sq st) sq (to_move st)
  end.

(** [status['to_move'] = c] *)
Definition set_to_move (st : status) (c : color) : status :=
  mkStatus (white_sq st) (black_sq st) c.

Definition initial_status : status := mkStatus "d1" "d8" white.

(** The value of [fallen_queen] when it is not [None]: the number of the
    full move and the text of the capturing move. *)
Definition finding : Type := (nat * string)%type.

(** [math.ceil((i+1)/2)] on the index of a move (the quotient of the
    floats is exact below 2^53). *)
Definition full_move (i : nat) : nat := (i + 1 + 1) / 2.

(** [r'Q(x)?']: the capture marker is taken when it is there. *)
Definition match_queen : matcher := fun s =>
  if prefix "Qx" s then Some 2
  else if prefix "Q" s then Some 1
  else None.

(** The square stored for a queen move:
    [re.sub(r'Q(x)?', '', move.replace('+', ''))]. *)
Definition queen_destination (move : string) : string :=
  let clean_move := str_replace "+" "" move in
  re_sub match_queen "" clean_move.

(** One turn of the loop either leaves the function with a [return] or
    goes on with the new values of [fallen_queen] and [status]. *)
Inductive outcome : Type :=
| Return (r : option finding)
| Continue (fallen_queen : option finding) (st : status).

(** [o is not None] *)
Definition is_not_none {A : Type} (o : option A) : bool :=
  match o with
  | Some _ => true
  | None => false
  end.

(** The end of the body of the loop: the update of the square of the
    queen that moves, and the change of the colour to move. *)
Definition move_queen (move : string) (st : status) : status :=
  let st :=
    if startswith move "Q"
    then set_square st (to_move st) (queen_destination move)
    else st in
  set_to_move st (flip_color (to_move st)).

(** The body of the loop of [_get_botez_gambit] on the move [move] of
    index [i]. *)
Definition step (i : nat) (move : string)
    (fallen_queen : option finding) (st : status) : outcome :=
  if is_not_none fallen_queen
     && (negb (contains "x" move) && negb (contains "#" move))
  then Return fallen_queen
  else
    let opponent_queen := square st (flip_color (to_move st)) in
    if contains ("x" ++ opponent_queen) move then
      if is_not_none fallen_queen then Return None
      else Continue (Some (full_move i, move)) (move_queen move st)
    else Continue fallen_queen (move_queen move st).

(** The loop over [enumerate(moves)] from index [i] on; a function that
    falls off its end returns [None]. *)
Fixpoint replay (i : nat) (moves : list string)
    (fallen_queen : option finding) (st : status) : option finding :=
  match moves with
  | [] => None
  | move :: moves' =>
      match step i move fallen_queen st with
      | Return r => r
      | Continue fallen_queen' st' => replay (S i) moves' fallen_queen' st'
      end
  end.

Definition _get_botez_gambit (moves : list string) : option finding :=
  replay 0 moves None initial_status.

(** Where the loop stands once the moves of [moves] have been played
    from index [i] on: the variables at that point, or the value
    returned on the way. *)
Fixpoint reach_from (i : nat) (moves : list string)
    (fallen_queen : option finding) (st : status) : outcome :=
  match moves with
  | [] => Continue fallen_queen st
  | move :: moves' =>
      match step i move fallen_queen st with
      | Return r => Return r
      | Continue fallen_queen' st' => reach_from (S i) moves' fallen_queen' st'
      end
  end.

Definition reach (moves : list string) : outcome :=
  reach_from 0 moves None initial_status.

End Detector.

(* ================================================================== *)
(** ** The vocabulary of the statements *)

Module Props.
Import PyStr.

(** The squares of the board, [a1] to [h8]. *)
Definition board_squares : list string :=
  flat_map
    (fun file => map (fun rank => String file (String rank EmptyString))
                   (list_ascii_of_string "12345678"))
    (list_ascii_of_string "abcdefgh").

(** The text of a board square holds no [Q] and no [+], and does not
    begin with [x]. *)
Definition plain_square (sq : string) : bool :=
  negb (contains "Q" sq) && negb (contains "+" sq) && negb (prefix "x" sq).

(** The forms of a queen move to the square [sq]: plain or capturing,
    with or without the check marker [+]. *)
Definition queen_moves_to (sq : string) : list string :=
  [ "Q" ++ sq; "Qx" ++ sq; "Q" ++ sq ++ "+"; "Qx" ++ sq ++ "+" ]%string.

(** A digit immediately followed by a period occurs in the text. *)
Fixpoint digit_dot (s : string) : bool :=
  match s with
  | EmptyString => false
  | String c s' => (is_digit c && prefix "." s') || digit_dot s'
  end.

(** The pattern of a matcher matches somewhere in the text. *)
Fixpoint has_match (m : matcher) (s : string) : bool :=
  match m s with
  | Some _ => true
  | None =>
      match s with
      | EmptyString => false
      | String _ s' => has_match m s'
      end
  end.

End Props.

(* ================================================================== *)
(** ** The collection of the games: [_get_data], [_filter_games],
       [_register_games], [_collect_games] *)

Module Collector.
Import PyStr.

(** [PLAYERS_NAMES] *)
Definition PLAYERS_NAMES : list string :=
  [ "GKunchev"; "whiteknightuwu"; "georgi4c"; "StefSportsmann";
    "funvengeance"; "vbechev"; "Drdevil1234"; "vaseka"; "DK97";
    "Baskarov25"; "nikolaiberchev"; "psakutov" ].

(** [x in names], on a list of strings. *)
Definition name_in (x : string) (names : list string) : bool :=
  existsb (fun name => String.eqb name x) names.

(** The part of [r'/2021/0[34567]'] that follows [.+], at the head of
    the text. *)
Definition month_at_head (s : string) : bool :=
  prefix "/2021/0" s &&
  match String.get 7 s with
  | Some d => existsb (Ascii.eqb d) (list_ascii_of_string "34567")
  | None => false
  end.

(** The rest of [.+] and what follows it: where [.+] stops does not
    change whether there is a match. *)
Fixpoint month_after_dots (s : string) : bool :=
  month_at_head s ||
  match s with
  | EmptyString => false
  | String c s' => negb (is_nl c) && month_after_dots s'
  end.

(** [TIME_PERIOD_REGEX.match(s)] is not [None]; [match] looks for the
    pattern at the start of the text only. *)
Definition TIME_PERIOD_REGEX (s : string) : bool :=
  match s with
  | EmptyString => false
  | String c s' => negb (is_nl c) && month_after_dots s'
  end.

(** What the code reads of a game: [game['white']['username']],
    [game['black']['username']], [game['url']] and [game['pgn']]. *)
Class Game (game : Type) : Type := {
  white_username : game -> string;
  black_username : game -> string;
  url : game -> string;
  pgn : game -> string
}.

(** What the code reads of [json.loads(response.content)]: the values
    under ['archives'] and ['games'], where the key is there. *)
Record document (game : Type) : Type := mkDocument {
  doc_archives : option (list string);
  doc_games : option (list game)
}.
Arguments mkDocument {game}.
Arguments doc_archives {game}.
Arguments doc_games {game}.

(** [requests.get(link)], as the status code and the parsed content of
    the response; the world is what the answer may depend on. *)
Class Server (world game : Type) : Type := {
  requests_get : string -> world -> (nat * document game) * world
}.

Inductive error : Type :=
| TypeError
| KeyError (key : string).

Definition API_ROOT : string := "https://api.chess.com/pub".

Section Games.
Context {game : Type} `{Game game}.

(** The loop of [_filter_games], [result] being the list built so
    far. *)
Fixpoint filter_loop (games result : list game) : list game :=
  match games with
  | [] => result
  | g :: games' =>
      filter_loop games'
        (if name_in (white_username g) PLAYERS_NAMES
         then if name_in (black_username g) PLAYERS_NAMES
              then result ++ [g]
              else result
         else result)
  end.

Definition _filter_games (games : list game) : list game :=
  filter_loop games [].

(** The inner loop of [_register_games]: whether it ends on its
    [break]. *)
Fixpoint url_known (old_games : list game) (new_game : game) : bool :=
  match old_games with
  | [] => false
  | old_game :: old_games' =>
      if String.eqb (url old_game) (url new_game) then true
      else url_known old_games' new_game
  end.

(** [_register_games(self, games)], [self._games] passed in and out
    as [store]. *)
Fixpoint _register_games (store games : list game) : list game :=
  match games with
  | [] => store
  | new_game :: games' =>
      _register_games
        (if url_known store new_game then store else store ++ [new_game])
        games'
  end.

Context {world : Type} `{Server world game}.

(** [_get_data(self, endpoint, whole_link)]; a function that ends
    without [return] gives [None]. *)
Definition _get_data (endpoint : string) (whole_link : bool) (w : world)
    : option (document game) * world :=
  let link :=
    if whole_link then endpoint else (API_ROOT ++ "/" ++ endpoint)%string in
  let '(status_code, content, w') := requests_get link w in
  if Nat.eqb status_code 200 then (Some content, w') else (None, w').

(** The inner loop of [_collect_games], over the archives of one
    player. *)
Fixpoint collect_archives (time_period : string -> bool)
    (archives : list string) (store : list game) (w : world)
    : (error + list game) * world :=
  match archives with
  | [] => (inr store, w)
  | archive :: archives' =>
      if time_period archive then
        let '(games, w') := _get_data archive true w in
        match games with
        | None => (inl TypeError, w')
        | Some content =>
            match doc_games content with
            | None => (inl (KeyError "games"), w')
            | Some games =>
                collect_archives time_period archives'
                  (_register_games store (_filter_games games)) w'
            end
        end
      else collect_archives time_period archives' store w
  end.

(** [_collect_games(self)], with [self._players] and
    [self._time_period]; subscripting [None] raises [TypeError], a
    missing key [KeyError]. *)
Fixpoint _collect_games (players : list string)
    (time_period : string -> bool) (store : list game) (w : world)
    : (error + list game) * world :=
  match players with
  | [] => (inr store, w)
  | player :: players' =>
      let archive_list_endpoint :=
        ("player/" ++ player ++ "/games/archives")%string in
      let '(archive_list, w') := _get_data archive_list_endpoint false w in
      match archive_list with
      | None => (inl TypeError, w')
      | Some content =>
          match doc_archives content with
          | None => (inl (KeyError "archives"), w')
          | Some archives =>
              match collect_archives time_period archives store w' with
              | (inl e, w'') => (inl e, w'')
              | (inr store', w'') =>
                  _collect_games players' time_period store' w''
              end
          end
      end
  end.

End Games.

End Collector.

(* ================================================================== *)
(** ** The report: [_collect_botez_gambits] *)

Module Reporter.
Import PyStr Tokenizer Detector Collector.

(** What [print] is given: a string, or the pair of a finding. *)
Inductive printed : Type :=
| Line (s : string)
| Pair (f : finding).

Section Games.
Context {game : Type} `{Game game}.

(** The three calls of [print] for a game with a finding. *)
Definition report (g : game) (botez_gambit : finding) : list printed :=
  [ Line ("=== " ++ white_username g ++ " vs " ++ black_username g ++ " ===");
    Line (url g);
    Pair botez_gambit ].

(** [_collect_botez_gambits(self)] over [self._games]: what is printed,
    and the exception that ends the loop, if one does. *)
Fixpoint _collect_botez_gambits (games : list game)
    : list printed * option exn :=
  match games with
  | [] => ([], None)
  | g :: games' =>
      match _get_moves_list (pgn g) with
      | inl e => ([], Some e)
      | inr moves =>
          let out :=
            match _get_botez_gambit moves with
            | Some botez_gambit => report g botez_gambit
            | None => []
            end in
          let (out', e) := _collect_botez_gambits games' in
          (out ++ out', e)
      end
  end.

End Games.

End Reporter.

(* ================================================================== *)
(** ** The exports that [_get_moves_list] is written for *)

Module Pgn.
Import PyStr Tokenizer.

(** Every character of the text is of the class. *)
Fixpoint all_chars (P : ascii -> bool) (s : string) : bool :=
  match s with
  | EmptyString => true
  | String c s' => P c && all_chars P s'
  end.

(** One ply of the move text: its number, whether the number is
    followed by three periods (black) or by one (white), the move, and
    the text between the braces that follow it. *)
Record ply : Type := mkPly {
  ply_number : string;
  ply_black : bool;
  ply_move : string;
  ply_clock : string
}.

(** The plies one after the other and [tail] at the end, each ply as
    its number, what [dots] gives, a space, its move and what [annot]
    gives. *)
Fixpoint layout (dots annot : ply -> string) (plies : list ply)
    (tail : string) : string :=
  match plies with
  | [] => tail
  | p :: plies' =>
      ply_number p ++ dots p ++ " " ++ ply_move p ++ annot p
      ++ layout dots annot plies' tail
  end.

Definition export_dots (p : ply) : string :=
  if ply_black p then "..." else ".".

Definition export_annot (p : ply) : string :=
  " {" ++ ply_clock p ++ "} ".

(** The record of a game: the header, a blank line, and the move
    text, which ends with the result and a line feed. *)
Definition export_text (header : string) (plies : list ply) (result : string)
    : string :=
  header ++ blank_line
  ++ layout export_dots export_annot plies (result ++ String nl "").

(** The three results that [_get_moves_list] removes. *)
Definition results : list string := ["1-0"; "0-1"; "1/2-1/2"].

(** A character of a move: no whitespace, and none of [{], [.], [0]
    and [/]. *)
Definition is_move_char (c : ascii) : bool :=
  negb (is_space c)
  && negb (existsb (Ascii.eqb c) (list_ascii_of_string "{.0/")).

(** A character of the text between braces: neither a line feed nor a
    closing brace. *)
Definition is_clock_char (c : ascii) : bool :=
  negb (is_nl c) && negb (Ascii.eqb c "}").

Definition nonempty (s : string) : bool :=
  match s with
  | EmptyString => false
  | String _ _ => true
  end.

(** The number is made of digits, the move of move characters, the
    text between braces of its characters, and none is empty. *)
Definition wf_ply (p : ply) : bool :=
  nonempty (ply_number p) && all_chars is_digit (ply_number p)
  && nonempty (ply_move p) && all_chars is_move_char (ply_move p)
  && nonempty (ply_clock p) && all_chars is_clock_char (ply_clock p).

(** The plies with a period after each number, [gap] between two
    plies and [tail] at the end. *)
Fixpoint joined (gap : string) (plies : list ply) (tail : string) : string :=
  match plies with
  | [] => tail
  | p :: plies' =>
      ply_number p ++ "." ++ " " ++ ply_move p
      ++ match plies' with
         | [] => tail
         | _ :: _ => gap ++ joined gap plies' tail
         end
  end.

(** What follows a move in the text that is split. *)
Definition after_move (plies : list ply) : string :=
  match plies with
  | [] => ""
  | _ :: _ => " " ++ joined " " plies ""
  end.

(** The character is not [x]. *)
Definition not_char (x : ascii) (c : ascii) : bool := negb (Ascii.eqb c x).

(** No match of the matcher starts in [a] when [b] follows. *)
Fixpoint no_match_in (m : matcher) (a b : string) : Prop :=
  match a with
  | EmptyString => True
  | String _ a' => m (a ++ b)%string = None /\ no_match_in m a' b
  end.

End Pgn.

(* ================================================================== *)
(** ** Further vocabulary of the statements *)

Module Terms.
Import PyStr Detector Props Collector.

(** The moves played while a finding is pending and the game goes on:
    each holds [x] or [#]. *)
Definition contested (move : string) : bool :=
  contains "x" move || contains "#" move.

(** Whether the turn of the loop on [move] ends in one of the two
    [return]s: a finding is pending, and the move either holds neither
    [x] nor [#] (the [return] of [fallen_queen]), or takes on the
    square tracked for the opponent's queen (the [return None]). *)
Definition turn_returns (fallen_queen : option finding) (st : status)
    (move : string) : bool :=
  is_not_none fallen_queen
  && (negb (contested move)
      || contains ("x" ++ square st (flip_color (to_move st))) move).

(** The dictionary [status] when the turn of the loop is left: both
    [return]s come before the two writes to it, the square of the
    queen that moves and the colour to move. *)
Definition turn_status (i : nat) (move : string)
    (fallen_queen : option finding) (st : status) : status :=
  match step i move fallen_queen st with
  | Return _ => st
  | Continue _ st' => st'
  end.

(** A token that is not a queen move, or a queen move to a board
    square in one of the four forms of [queen_moves_to]. *)
Definition plain_token (move : string) : Prop :=
  startswith move "Q" = false
  \/ exists sq, In sq board_squares /\ In move (queen_moves_to sq).

(** The squares of both queens are board squares. *)
Definition on_board (st : status) : Prop :=
  In (white_sq st) board_squares /\ In (black_sq st) board_squares.

(** Both players of a game are on the roster. *)
Definition on_roster {game : Type} `{Game game} (g : game) : bool :=
  name_in (white_username g) PLAYERS_NAMES
  && name_in (black_username g) PLAYERS_NAMES.

(** The register holds one game per url, all of them between players
    of the roster. *)
Definition sound_register {game : Type} `{Game game} (store : list game)
    : Prop :=
  NoDup (map url store) /\ Forall (fun g => on_roster g = true) store.

(** A game as a plain record of the four values read. *)
Record chess_game : Type := mkGame {
  game_white : string;
  game_black : string;
  game_url : string;
  game_pgn : string
}.

#[export] Instance chess_game_Game : Game chess_game :=
  {| white_username := game_white;
     black_username := game_black;
     url := game_url;
     pgn := game_pgn |}.

(** A server that gives the answers of a script, one after the other,
    and 404 when the script is over. *)
#[export] Instance scripted_server (game : Type)
  : Server (list (nat * document game)) game :=
  {| requests_get := fun _ script =>
       match script with
       | answer :: script' => (answer, script')
       | [] => ((404, mkDocument None None), [])
       end |}.

End Terms.

Import PyStr Tokenizer Detector Props.
Import Collector Reporter Terms Pgn.

(* ================================================================== *)
(** ** Substrings *)

Lemma prefix_empty (s : string) : prefix "" s = true.
Proof. destruct s; reflexivity. Qed.

Lemma prefix_cons (a b : ascii) (p s : string) :
  prefix (String a p) (String b s) = Ascii.eqb a b && prefix p s.
Proof.
  simpl. destruct (ascii_dec a b) as [->|Hne].
  - now rewrite Ascii.eqb_refl.
  - apply Ascii.eqb_neq in Hne. now rewrite Hne.
Qed.

Lemma prefix_app_l (a b s : string) :
  prefix (a ++ b) s = true -> prefix a s = true.
Proof.
  revert s. induction a as [|c a IH]; intros s H.
  - apply prefix_empty.
  - destruct s as [|d s]; [discriminate H|].
    change (String c a ++ b)%string with (String c (a ++ b)) in H.
    rewrite prefix_cons in *.
    apply andb_true_iff in H as [Hc Hp].
    rewrite Hc. simpl. now apply IH.
Qed.

Lemma contains_app_l (a b s : string) :
  contains (a ++ b) s = true -> contains a s = true.
Proof.
  induction s as [|d s IH]; cbn [contains]; intros H.
  - apply orb_true_iff in H as [H|H]; [|discriminate H].
    apply prefix_app_l in H. now rewrite H.
  - apply orb_true_iff in H as [H|H].
    + apply prefix_app_l in H. now rewrite H.
    + rewrite (IH H). apply orb_true_r.
Qed.

(* ================================================================== *)
(** ** The detector: the loop and its prefixes *)

Lemma replay_app (pre rest : list string) :
  forall i fq st,
    replay i (pre ++ rest) fq st =
    match reach_from i pre fq st with
    | Return r => r
    | Continue fq' st' => replay (i + List.length pre) rest fq' st'
    end.
Proof.
  induction pre as [|m pre IH]; intros i fq st; simpl.
  - now rewrite Nat.add_0_r.
  - destruct (step i m fq st) as [r|fq' st']; [reflexivity|].
    rewrite IH. now rewrite Nat.add_succ_r.
Qed.

Lemma reach_from_app (pre rest : list string) :
  forall i fq st,
    reach_from i (pre ++ rest) fq st =
    match reach_from i pre fq st with
    | Return r => Return r
    | Continue fq' st' => reach_from (i + List.length pre) rest fq' st'
    end.
Proof.
  induction pre as [|m pre IH]; intros i fq st; simpl.
  - now rewrite Nat.add_0_r.
  - destruct (step i m fq st) as [r|fq' st']; [reflexivity|].
    rewrite IH. now rewrite Nat.add_succ_r.
Qed.

Lemma reach_app (pre rest : list string) :
  reach (pre ++ rest) =
  match reach pre with
  | Return r => Return r
  | Continue fq st => reach_from (List.length pre) rest fq st
  end.
Proof. unfold reach. now rewrite reach_from_app. Qed.

Lemma detect_app (pre rest : list string) :
  _get_botez_gambit (pre ++ rest) =
  match reach pre with
  | Return r => r
  | Continue fq st => replay (List.length pre) rest fq st
  end.
Proof. unfold _get_botez_gambit, reach. now rewrite replay_app. Qed.

Lemma step_pending_quiet (i : nat) (move : string) (f : finding) (st : status) :
  contains "x" move = false -> contains "#" move = false ->
  step i move (Some f) st = Return (Some f).
Proof. intros Hx Hm. unfold step. simpl. now rewrite Hx, Hm. Qed.

Lemma step_normal_capture (i : nat) (move : string) (st : status) :
  contains ("x" ++ square st (flip_color (to_move st))) move = true ->
  step i move None st = Continue (Some (full_move i, move)) (move_queen move st).
Proof. intros H. unfold step. simpl is_not_none. simpl andb. now rewrite H. Qed.

Lemma step_pending_capture (i : nat) (move : string) (f : finding) (st : status) :
  contains ("x" ++ square st (flip_color (to_move st))) move = true ->
  step i move (Some f) st = Return None.
Proof.
  intros H. unfold step.
  rewrite (contains_app_l "x" _ _ H).
  cbn [is_not_none negb andb]. cbv zeta. now rewrite H.
Qed.

Lemma step_continue_status (i : nat) (move : string) (fq fq' : option finding)
    (st st' : status) :
  step i move fq st = Continue fq' st' -> st' = move_queen move st.
Proof.
  unfold step. intros H.
  destruct (is_not_none fq && _); [discriminate H|].
  destruct (contains _ move).
  - destruct (is_not_none fq); [discriminate H|]. now inversion H.
  - now inversion H.
Qed.

Lemma to_move_move_queen (move : string) (st : status) :
  to_move (move_queen move st) = flip_color (to_move st).
Proof.
  unfold move_queen. destruct (startswith move "Q"); [|reflexivity].
  destruct st as [w b []]; reflexivity.
Qed.

Lemma flip_color_involutive (c : color) : flip_color (flip_color c) = c.
Proof. now destruct c. Qed.

Lemma square_move_queen_other (move : string) (st : status) :
  square (move_queen move st) (flip_color (to_move st)) =
  square st (flip_color (to_move st)).
Proof.
  unfold move_queen. destruct (startswith move "Q"); [|reflexivity].
  destruct st as [w b []]; reflexivity.
Qed.

Lemma square_move_queen_mover (move : string) (st : status) :
  startswith move "Q" = true ->
  square (move_queen move st) (to_move st) = queen_destination move.
Proof.
  intros H. unfold move_queen. rewrite H.
  destruct st as [w b []]; reflexivity.
Qed.

Lemma move_queen_not_queen (move : string) (st : status) :
  startswith move "Q" = false ->
  move_queen move st = set_to_move st (flip_color (to_move st)).
Proof. intros H. unfold move_queen. now rewrite H. Qed.

Lemma move_queen_is_queen (move : string) (st : status) :
  startswith move "Q" = true ->
  move_queen move st =
  set_to_move (set_square st (to_move st) (queen_destination move))
    (flip_color (to_move st)).
Proof.
  intros H. unfold move_queen. rewrite H.
  destruct st as [w b []]; reflexivity.
Qed.

(** The number reported is the ceiling of half the ply. *)
Lemma full_move_ceiling (i : nat) :
  2 * full_move i - 1 <= i + 1 <= 2 * full_move i.
Proof.
  unfold full_move.
  pose proof (Nat.div_mod_eq (i + 1 + 1) 2) as E.
  pose proof (Nat.mod_upper_bound (i + 1 + 1) 2) as B.
  lia.
Qed.

(* ================================================================== *)
(** ** The detector: the properties of the design *)

(** The games of the design document. *)
Example game_capture_off_the_queen :
  _get_botez_gambit ["e4"; "e5"; "Qh5"; "Nc6"; "Qxf7"] = None.
Proof. reflexivity. Qed.

Example game_queens_exchanged :
  _get_botez_gambit ["d4"; "d5"; "Qd3"; "Qd6"; "Qxd5"; "Qxd1"] = None.
Proof. reflexivity. Qed.

Example game_ends_on_capture :
  _get_botez_gambit ["e4"; "e5"; "Qh5"; "Nf6"; "Qxh7"] = None.
Proof. reflexivity. Qed.

Example game_queen_recaptures_pawn :
  _get_botez_gambit ["e4"; "d5"; "exd5"; "Qxd5"; "Nc3"] = None.
Proof. reflexivity. Qed.

(** A queen lost and not avenged, and an export of the server. *)
Example game_queen_lost :
  _get_botez_gambit ["e4"; "Nf6"; "Qg4"; "Nxg4"; "a3"; "h5"]
  = Some (2, "Nxg4").
Proof. reflexivity. Qed.

Example export_tokenized :
  _get_moves_list
    ("[Event x]" ++ blank_line
     ++ "1. e4 {[%clk 0:09:59]} 1... e5 {[%clk 0:09:58]} 2. Nf3 {[%clk 0:09:50]} 1-0"
     ++ String nl "")
  = inr ["e4"; "e5"; "Nf3"].
Proof. reflexivity. Qed.

Example no_moves_tokenized :
  _get_moves_list ("[Event x]" ++ blank_line) = inr [].
Proof. reflexivity. Qed.

(** A turn that goes on keeps [fallen_queen], or sets it on a capture
    of the tracked queen met in the normal state. *)
Lemma step_continue_fallen (i : nat) (move : string)
    (fq fq' : option finding) (st st' : status) :
  step i move fq st = Continue fq' st' ->
  fq' = fq
  \/ (fq = None /\ fq' = Some (full_move i, move)
      /\ contains ("x" ++ square st (flip_color (to_move st))) move = true).
Proof.
  unfold step. intros H.
  destruct (is_not_none fq && _); [discriminate H|].
  destruct (contains _ move) eqn:Hc.
  - destruct fq as [f|]; [discriminate H|].
    right. now inversion H.
  - left. now inversion H.
Qed.

(** A pending finding is the full move and the text of a capture
    played earlier. *)
Lemma pending_origin_from (pre : list string) :
  forall i fq st f st',
    reach_from i pre fq st = Continue (Some f) st' ->
    fq = Some f
    \/ exists j capture,
         nth_error pre j = Some capture
         /\ f = (full_move (i + j), capture)
         /\ contains "x" capture = true.
Proof.
  induction pre as [|m pre IH]; intros i fq st f st' H; cbn [reach_from] in H.
  - left. now inversion H.
  - destruct (step i m fq st) as [r|fq1 st1] eqn:Hs; [discriminate H|].
    destruct (IH _ _ _ _ _ H) as [E|(j & capture & Hj & Hf & Hx)].
    + subst fq1.
      destruct (step_continue_fallen _ _ _ _ _ _ Hs) as [E|(_ & E & Hc)].
      * now left.
      * right. exists 0, m. inversion E; subst.
        rewrite Nat.add_0_r. repeat split.
        exact (contains_app_l "x" _ _ Hc).
    + right. exists (S j), capture.
      rewrite Nat.add_succ_r. now repeat split.
Qed.

(** C1. In the pending state, a move that holds neither the capture
    marker [x] nor the marker [#] that the loop tests with it makes the
    detector return the pending finding, whatever follows in the game;
    that finding is the full move and the text of a capture played
    earlier. *)
Theorem pending_quiet_move_emits (pre rest : list string) (move : string)
    (f : finding) (st : status) :
  reach pre = Continue (Some f) st ->
  contains "x" move = false ->
  contains "#" move = false ->
  step (List.length pre) move (Some f) st = Return (Some f)
  /\ _get_botez_gambit (pre ++ move :: rest) = Some f
  /\ exists j capture,
       nth_error pre j = Some capture /\ f = (full_move j, capture).
Proof.
  intros Hreach Hx Hm.
  pose proof (step_pending_quiet (List.length pre) move f st Hx Hm) as Hs.
  split; [exact Hs|split].
  - rewrite detect_app, Hreach. cbn [replay]. now rewrite Hs.
  - destruct (pending_origin_from pre _ _ _ _ _ Hreach)
      as [E|(j & capture & Hj & Hf & _)]; [discriminate E|].
    now exists j, capture.
Qed.

Lemma pending_quiet_move_emits_witness :
  _get_botez_gambit (["e4"; "Nf6"; "Qg4"; "Nxg4"] ++ "a3" :: ["h5"])
  = Some (2, "Nxg4").
Proof.
  refine (proj1 (proj2 (pending_quiet_move_emits
                          ["e4"; "Nf6"; "Qg4"; "Nxg4"] ["h5"] "a3"
                          (2, "Nxg4") (mkStatus "g4" "d8" white) _ _ _)));
    reflexivity.
Defined.

(** C2, as the code has it.  A capture of the tracked queen on ply
    [p], met in the normal state and followed by a move with neither
    [x] nor [#], is reported with the text of ply [p] and the number of
    the full move that holds ply [p], which is the ceiling of [p / 2]. *)
Theorem capture_then_quiet_move_found (pre rest : list string)
    (capture quiet : string) (st : status) :
  reach pre = Continue None st ->
  contains ("x" ++ square st (flip_color (to_move st))) capture = true ->
  contains "x" quiet = false ->
  contains "#" quiet = false ->
  let p := List.length pre + 1 in
  exists n : nat,
    _get_botez_gambit (pre ++ capture :: quiet :: rest) = Some (n, capture)
    /\ 2 * n - 1 <= p <= 2 * n.
Proof.
  intros Hreach Hcap Hx Hm p. exists (full_move (List.length pre)).
  split; [|apply full_move_ceiling].
  rewrite detect_app, Hreach. cbn [replay].
  rewrite (step_normal_capture _ _ _ Hcap).
  now rewrite (step_pending_quiet _ _ _ _ Hx Hm).
Qed.

Lemma capture_then_quiet_move_found_witness :
  exists n : nat,
    _get_botez_gambit (["e4"; "Nf6"; "Qg4"] ++ "Nxg4" :: "a3" :: ["h5"])
    = Some (n, "Nxg4")
    /\ 2 * n - 1 <= 4 <= 2 * n.
Proof.
  apply (capture_then_quiet_move_found ["e4"; "Nf6"; "Qg4"] ["h5"] "Nxg4" "a3"
           (mkStatus "g4" "d8" black));
    reflexivity.
Defined.

(** C2, as it is worded, fails on a capture by black: the white queen
    is taken on ply 4 and ply 5 is quiet; the finding bears the full
    move 2, where the ceiling of [(4 + 1) / 2] is 3.  It fails too when
    the capture is met in the pending state: the queen taken on ply 6
    answers the capture of ply 5, and nothing is returned. *)
Lemma capture_then_quiet_move_counterexample :
  (reach ["e4"; "Nf6"; "Qg4"] = Continue None (mkStatus "g4" "d8" black)
   /\ contains ("x" ++ "g4") "Nxg4" = true
   /\ contains "x" "a3" = false /\ contains "#" "a3" = false
   /\ _get_botez_gambit ["e4"; "Nf6"; "Qg4"; "Nxg4"; "a3"] = Some (2, "Nxg4")
   /\ _get_botez_gambit ["e4"; "Nf6"; "Qg4"; "Nxg4"; "a3"]
      <> Some ((4 + 1 + 1) / 2, "Nxg4"))
  /\
  (reach ["d4"; "d5"; "Qd3"; "Qd6"; "Qxd6"]
   = Continue (Some (3, "Qxd6")) (mkStatus "d6" "d6" black)
   /\ contains ("x" ++ "d6") "Qxd6" = true
   /\ contains "x" "a3" = false /\ contains "#" "a3" = false
   /\ _get_botez_gambit ["d4"; "d5"; "Qd3"; "Qd6"; "Qxd6"; "Qxd6"; "a3"] = None).
Proof. repeat split; try reflexivity. discriminate. Qed.

(** C3. A capture of the tracked queen met in the normal state and
    answered, on the next ply, by a capture on the square then tracked
    for the side that has just moved: the detector returns [None] at
    that ply, whatever follows. *)
Theorem reciprocal_capture_returns_none (pre rest : list string)
    (capture recapture : string) (st : status) :
  reach pre = Continue None st ->
  contains ("x" ++ square st (flip_color (to_move st))) capture = true ->
  contains ("x" ++ square (move_queen capture st) (to_move st)) recapture
  = true ->
  reach (pre ++ [capture])
  = Continue (Some (full_move (List.length pre), capture))
      (move_queen capture st)
  /\ step (List.length pre + 1) recapture
       (Some (full_move (List.length pre), capture)) (move_queen capture st)
     = Return None
  /\ _get_botez_gambit (pre ++ capture :: recapture :: rest) = None.
Proof.
  intros Hreach Hcap Hre.
  assert (Hre' : contains
            ("x" ++ square (move_queen capture st)
                      (flip_color (to_move (move_queen capture st))))
            recapture = true).
  { now rewrite to_move_move_queen, flip_color_involutive. }
  split; [|split].
  - rewrite reach_app, Hreach. cbn [reach_from].
    now rewrite (step_normal_capture _ _ _ Hcap).
  - now apply step_pending_capture.
  - rewrite detect_app, Hreach. cbn [replay].
    rewrite (step_normal_capture _ _ _ Hcap).
    now rewrite (step_pending_capture _ _ _ _ Hre').
Qed.

Lemma reciprocal_capture_returns_none_witness :
  _get_botez_gambit (["d4"; "d5"; "Qd3"; "Qd6"] ++ "Qxd6" :: "cxd6" :: ["a3"])
  = None.
Proof.
  apply (reciprocal_capture_returns_none ["d4"; "d5"; "Qd3"; "Qd6"] ["a3"]
           "Qxd6" "cxd6" (mkStatus "d3" "d6" white));
    reflexivity.
Defined.

(** C5. A game that ends in the pending state yields nothing. *)
Theorem pending_at_end_returns_none (moves : list string) (f : finding)
    (st : status) :
  reach moves = Continue (Some f) st ->
  _get_botez_gambit moves = None.
Proof.
  intros Hreach.
  rewrite <- (app_nil_r moves), detect_app, Hreach. reflexivity.
Qed.

Lemma pending_at_end_returns_none_witness :
  _get_botez_gambit ["e4"; "Nf6"; "Qg4"; "Nxg4"; "Bxa6"; "Nxf2#"] = None.
Proof.
  apply (pending_at_end_returns_none
           ["e4"; "Nf6"; "Qg4"; "Nxg4"; "Bxa6"; "Nxf2#"]
           (2, "Nxg4") (mkStatus "g4" "d8" white));
    reflexivity.
Defined.

(** The colour to move after [n] plies from white's turn. *)
Lemma iter_flip_color (n : nat) :
  Nat.iter n flip_color white = (if Nat.even n then white else black)
  /\ Nat.iter (S n) flip_color white = (if Nat.even n then black else white).
Proof.
  induction n as [|n [IH1 IH2]].
  - split; reflexivity.
  - split.
    + rewrite IH2, Nat.even_succ, <- Nat.negb_even.
      now destruct (Nat.even n).
    + change (Nat.iter (S (S n)) flip_color white)
        with (flip_color (Nat.iter (S n) flip_color white)).
      rewrite IH2, Nat.even_succ, <- Nat.negb_even.
      now destruct (Nat.even n).
Qed.

Lemma to_move_reach_from (moves : list string) :
  forall i fq st fq' st',
    reach_from i moves fq st = Continue fq' st' ->
    to_move st' = Nat.iter (List.length moves) flip_color (to_move st).
Proof.
  induction moves as [|m moves IH]; intros i fq st fq' st' H; simpl in H.
  - now inversion H.
  - destruct (step i m fq st) as [r|fq1 st1] eqn:Hs; [discriminate H|].
    rewrite (IH _ _ _ _ _ H).
    rewrite (step_continue_status _ _ _ _ _ _ Hs), to_move_move_queen.
    cbn [List.length]. now rewrite Nat.iter_succ_r.
Qed.

(** A turn of the loop ends in a [return] or goes on with the status
    that [move_queen] gives, and which of the two is told by
    [turn_returns]. *)
Lemma step_returns_or_goes_on (i : nat) (move : string)
    (fq : option finding) (st : status) :
  (turn_returns fq st move = true
   /\ exists r, step i move fq st = Return r)
  \/ (turn_returns fq st move = false
      /\ exists fq', step i move fq st = Continue fq' (move_queen move st)).
Proof.
  unfold turn_returns, contested, step.
  destruct fq as [f|];
    destruct (contains "x" move), (contains "#" move),
      (contains ("x" ++ square st (flip_color (to_move st))) move);
    cbn [is_not_none negb andb orb]; eauto.
Qed.

(** C9, as the code has it.  When the token of index [k] is examined,
    white is to move if [k] is even and black if [k] is odd.  A token
    met with no finding pending, and a token met with a finding
    pending that holds [x] or [#] and does not take on the square
    tracked for the opponent's queen, flips the colour to move once
    and the loop goes on; every other token ends the function in a
    [return], and the colour to move is left as it was. *)
Theorem side_to_move_alternates (pre : list string) (fq : option finding)
    (st : status) (move : string) :
  reach pre = Continue fq st ->
  to_move st = (if Nat.even (List.length pre) then white else black)
  /\ (if turn_returns fq st move
      then (exists r, step (List.length pre) move fq st = Return r)
           /\ turn_status (List.length pre) move fq st = st
      else (exists fq',
              step (List.length pre) move fq st
              = Continue fq' (turn_status (List.length pre) move fq st))
           /\ to_move (turn_status (List.length pre) move fq st)
              = flip_color (to_move st)).
Proof.
  intros Hreach. split.
  - rewrite (to_move_reach_from _ _ _ _ _ _ Hreach).
    apply (iter_flip_color (List.length pre)).
  - unfold turn_status.
    destruct (step_returns_or_goes_on (List.length pre) move fq st)
      as [[Ht [r Hs]]|[Ht [fq' Hs]]]; rewrite Ht, Hs.
    + split; [now exists r|reflexivity].
    + split; [now exists fq'|apply to_move_move_queen].
Qed.

Lemma side_to_move_alternates_witness :
  to_move (mkStatus "g4" "d8" white) = white
  /\ (exists fq',
        step 4 "Bxa6" (Some (2, "Nxg4")) (mkStatus "g4" "d8" white)
        = Continue fq' (mkStatus "g4" "d8" black))
     /\ to_move (mkStatus "g4" "d8" black)
        = flip_color (to_move (mkStatus "g4" "d8" white)).
Proof.
  exact (side_to_move_alternates ["e4"; "Nf6"; "Qg4"; "Nxg4"]
           (Some (2, "Nxg4")) (mkStatus "g4" "d8" white) "Bxa6" eq_refl).
Defined.

(** C9, as it is worded, fails on a token that ends the function: with
    the finding of ply 4 pending, the quiet token of ply 5 is examined
    and the function returns before the colour to move is flipped. *)
Lemma side_to_move_not_flipped_counterexample :
  reach ["e4"; "Nf6"; "Qg4"; "Nxg4"]
  = Continue (Some (2, "Nxg4")) (mkStatus "g4" "d8" white)
  /\ step 4 "a3" (Some (2, "Nxg4")) (mkStatus "g4" "d8" white)
     = Return (Some (2, "Nxg4"))
  /\ to_move (turn_status 4 "a3" (Some (2, "Nxg4"))
                (mkStatus "g4" "d8" white))
     = white
  /\ to_move (turn_status 4 "a3" (Some (2, "Nxg4"))
                (mkStatus "g4" "d8" white))
     <> flip_color (to_move (mkStatus "g4" "d8" white)).
Proof. repeat split. discriminate. Qed.

(** C10. A token that does not begin with [Q] leaves the squares of both
    queens as they were; of the status, only the colour to move
    changes. *)
Theorem non_queen_move_keeps_squares (i : nat) (move : string)
    (fq fq' : option finding) (st st' : status) :
  startswith move "Q" = false ->
  step i move fq st = Continue fq' st' ->
  white_sq st' = white_sq st
  /\ black_sq st' = black_sq st
  /\ to_move st' = flip_color (to_move st).
Proof.
  intros HQ Hs.
  rewrite (step_continue_status _ _ _ _ _ _ Hs), (move_queen_not_queen _ _ HQ).
  repeat split.
Qed.

Lemma non_queen_move_keeps_squares_witness :
  white_sq (mkStatus "g4" "d8" white) = "g4"
  /\ black_sq (mkStatus "g4" "d8" white) = "d8"
  /\ to_move (mkStatus "g4" "d8" white) = flip_color black.
Proof.
  apply (non_queen_move_keeps_squares 3 "Nxg4" None (Some (2, "Nxg4"))
           (mkStatus "g4" "d8" black) (mkStatus "g4" "d8" white));
    reflexivity.
Defined.

(* ================================================================== *)
(** ** The square stored for a queen move *)

Lemma append_empty_r (s : string) : (s ++ "")%string = s.
Proof. induction s as [|c s IH]; simpl; congruence. Qed.

Lemma contains_char_cons (a c : ascii) (s : string) :
  contains (String a "") (String c s) = false ->
  Ascii.eqb a c = false /\ contains (String a "") s = false.
Proof.
  cbn [contains]. rewrite prefix_cons, prefix_empty, andb_true_r.
  intros H. now apply orb_false_iff in H.
Qed.

(** [replace('+', '')] leaves a text without [+] as it is. *)
Lemma replace_plus_clean (a b : string) :
  contains "+" a = false ->
  str_replace "+" "" (a ++ b) = (a ++ str_replace "+" "" b)%string.
Proof.
  unfold str_replace. induction a as [|c a IH]; intros H; [reflexivity|].
  apply contains_char_cons in H as [Hc Ha].
  change (String c a ++ b)%string with (String c (a ++ b)).
  cbn [sub_go]. unfold match_lit at 1.
  rewrite prefix_cons, Hc. cbn [andb].
  now rewrite (IH Ha).
Qed.

(** [re.sub(r'Q(x)?', '', s)] leaves a text without [Q] as it is. *)
Lemma sub_queen_clean (s : string) :
  contains "Q" s = false -> re_sub match_queen "" s = s.
Proof.
  unfold re_sub. induction s as [|c s IH]; intros H; [reflexivity|].
  apply contains_char_cons in H as [Hc Hs].
  cbn [sub_go]. unfold match_queen at 1.
  rewrite !prefix_cons, Hc. cbn [andb].
  now rewrite (IH Hs).
Qed.

Lemma sub_queen_Q (sq : string) :
  contains "Q" sq = false -> prefix "x" sq = false ->
  re_sub match_queen "" (String "Q" sq) = sq.
Proof.
  intros HQ Hx. unfold re_sub. cbn [sub_go]. unfold match_queen at 1.
  rewrite !prefix_cons, Hx, prefix_empty. cbn [Ascii.eqb Bool.eqb andb].
  cbn [append]. now apply sub_queen_clean.
Qed.

Lemma sub_queen_Qx (sq : string) :
  contains "Q" sq = false ->
  re_sub match_queen "" (String "Q" (String "x" sq)) = sq.
Proof.
  intros HQ. unfold re_sub. cbn [sub_go]. unfold match_queen at 1.
  rewrite !prefix_cons, prefix_empty. cbn [Ascii.eqb Bool.eqb andb].
  cbn [append]. now apply sub_queen_clean.
Qed.

Lemma board_squares_plain (sq : string) :
  In sq board_squares ->
  contains "Q" sq = false /\ contains "+" sq = false /\ prefix "x" sq = false.
Proof.
  intros H.
  assert (Hall : forallb plain_square board_squares = true) by reflexivity.
  rewrite forallb_forall in Hall. specialize (Hall sq H).
  unfold plain_square in Hall.
  apply andb_true_iff in Hall as [Hall Hx].
  apply andb_true_iff in Hall as [HQ Hp].
  now rewrite negb_true_iff in HQ, Hp, Hx.
Qed.

Lemma queen_destination_square (sq move : string) :
  In sq board_squares ->
  In move (queen_moves_to sq) ->
  startswith move "Q" = true /\ queen_destination move = sq.
Proof.
  intros Hsq Hmove.
  destruct (board_squares_plain sq Hsq) as (HQ & Hp & Hx).
  assert (HpQ : contains "+" (String "Q" sq) = false).
  { cbn [contains]. rewrite prefix_cons, Hp. reflexivity. }
  assert (HpQx : contains "+" (String "Q" (String "x" sq)) = false).
  { cbn [contains]. rewrite !prefix_cons, Hp. reflexivity. }
  unfold queen_destination.
  destruct Hmove as [<-|[<-|[<-|[<-|[]]]]];
    (split;
     [unfold startswith; cbn [append];
      rewrite prefix_cons, prefix_empty; reflexivity|]).
  - rewrite <- (append_empty_r ("Q" ++ sq)).
    change ("Q" ++ sq)%string with (String "Q" sq).
    rewrite (replace_plus_clean _ "" HpQ), append_empty_r.
    now apply sub_queen_Q.
  - rewrite <- (append_empty_r ("Qx" ++ sq)).
    change ("Qx" ++ sq)%string with (String "Q" (String "x" sq)).
    rewrite (replace_plus_clean _ "" HpQx), append_empty_r.
    now apply sub_queen_Qx.
  - change ("Q" ++ sq ++ "+")%string with (String "Q" sq ++ "+")%string.
    rewrite (replace_plus_clean _ "+" HpQ).
    change (str_replace "+" "" "+") with "". rewrite append_empty_r.
    now apply sub_queen_Q.
  - change ("Qx" ++ sq ++ "+")%string
      with (String "Q" (String "x" sq) ++ "+")%string.
    rewrite (replace_plus_clean _ "+" HpQx).
    change (str_replace "+" "" "+") with "". rewrite append_empty_r.
    now apply sub_queen_Qx.
Qed.

(** C8, as the code has it.  A queen move to a board square, written
    [Q<sq>], [Qx<sq>], [Q<sq>+] or [Qx<sq>+], stores [<sq>] as the
    square of the queen of the side to move and leaves the other
    queen's square as it was. *)
Theorem queen_move_updates_square (i : nat) (sq move : string)
    (fq fq' : option finding) (st st' : status) :
  In sq board_squares ->
  In move (queen_moves_to sq) ->
  step i move fq st = Continue fq' st' ->
  square st' (to_move st) = sq
  /\ square st' (flip_color (to_move st))
     = square st (flip_color (to_move st)).
Proof.
  intros Hsq Hmove Hs.
  destruct (queen_destination_square sq move Hsq Hmove) as [HQ Hdest].
  rewrite (step_continue_status _ _ _ _ _ _ Hs). split.
  - now rewrite (square_move_queen_mover _ _ HQ).
  - apply square_move_queen_other.
Qed.

Lemma queen_move_updates_square_witness :
  square (mkStatus "d3" "d6" white) black = "d6"
  /\ square (mkStatus "d3" "d6" white) (flip_color black)
     = square (mkStatus "d3" "d8" black) (flip_color black).
Proof.
  apply (queen_move_updates_square 3 "d6" "Qd6" None None
           (mkStatus "d3" "d8" black) (mkStatus "d3" "d6" white)).
  - unfold board_squares. simpl. tauto.
  - simpl. tauto.
  - reflexivity.
Defined.

(** C8, as it is worded, fails on a queen move that bears the mate
    marker: only [+] is removed, and [#] stays in the stored square. *)
Lemma queen_move_mate_counterexample :
  reach ["e4"; "e5"; "Qh5"; "Nc6"; "Bc4"; "Nf6"]
  = Continue None (mkStatus "h5" "d8" white)
  /\ startswith "Qxf7#" "Q" = true
  /\ step 6 "Qxf7#" None (mkStatus "h5" "d8" white)
     = Continue None (mkStatus "f7#" "d8" black)
  /\ square (mkStatus "f7#" "d8" black) white <> "f7".
Proof. repeat split. discriminate. Qed.

(* ================================================================== *)
(** ** The tokenizer: the blank line *)

Lemma split_go_not_nil (m : matcher) (s : string) :
  forall skip, split_go m s skip <> [].
Proof.
  induction s as [|c s IH]; intros skip; cbn [split_go]; [discriminate|].
  destruct skip as [|k]; [|apply IH].
  destruct (m (String c s)) as [[|n]|];
    try discriminate; destruct (split_go m s 0); discriminate.
Qed.

Lemma split_without_separator (sep' : string) (a : ascii) (s : string) :
  contains (String a sep') s = false ->
  str_split (String a sep') s = [s].
Proof.
  unfold str_split. induction s as [|c s IH]; cbn [contains split_go];
    intros H; [reflexivity|].
  apply orb_false_iff in H as [Hp Hc].
  unfold match_lit at 1. rewrite Hp. now rewrite (IH Hc).
Qed.

Lemma split_with_separator (sep' : string) (a : ascii) (s : string) :
  contains (String a sep') s = true ->
  exists t u l, str_split (String a sep') s = t :: u :: l.
Proof.
  unfold str_split. induction s as [|c s IH]; cbn [contains split_go];
    intros H.
  - rewrite orb_false_r in H. discriminate H.
  - unfold match_lit at 1. destruct (prefix (String a sep') (String c s)).
    + cbn [String.length].
      destruct (split_go (match_lit (String a sep')) s (String.length sep'))
        as [|u l] eqn:E; [now apply split_go_not_nil in E|].
      now exists "", u, l.
    + destruct (IH H) as (t & u & l & E). rewrite E.
      now exists (String c t), u, l.
Qed.

(** C4, as the code has it.  A blob that holds a blank line is
    tokenized, and the detector gives its answer on the tokens; a blob
    without one makes [pgn.split('\n\n')[1]] raise [IndexError]. *)
Theorem tokenizer_defined_iff_blank_line (pgn : string) :
  (contains blank_line pgn = true ->
   exists tokens r,
     _get_moves_list pgn = inr tokens /\ _get_botez_gambit tokens = r)
  /\ (contains blank_line pgn = false ->
      _get_moves_list pgn = inl IndexError).
Proof.
  unfold _get_moves_list, blank_line. split; intros H.
  - destruct (split_with_separator _ _ _ H) as (t & u & l & E).
    rewrite E. cbn [nth_error]. eexists. eexists. split; reflexivity.
  - now rewrite (split_without_separator _ _ _ H).
Qed.

Lemma tokenizer_defined_iff_blank_line_witness :
  exists tokens r,
    _get_moves_list ("[Event x]" ++ blank_line ++ "1. e4 1... e5 1-0")
    = inr tokens
    /\ _get_botez_gambit tokens = r.
Proof.
  apply (proj1 (tokenizer_defined_iff_blank_line
                  ("[Event x]" ++ blank_line ++ "1. e4 1... e5 1-0"))).
  reflexivity.
Defined.

(** C4, as it is worded, fails on a blob without a blank line. *)
Lemma tokenizer_no_blank_line_counterexample :
  contains blank_line "1. e4 e5" = false
  /\ _get_moves_list "1. e4 e5" = inl IndexError
  /\ _get_moves_list "" = inl IndexError.
Proof. repeat split. Qed.

(* ================================================================== *)
(** ** The tokenizer: move numbers *)

Lemma digit_not_space (c : ascii) : is_digit c = true -> is_space c = false.
Proof.
  destruct c as [[] [] [] [] [] [] [] []]; vm_compute; congruence.
Qed.

Lemma prefix_dot (s : string) :
  prefix "." s = true -> exists s', s = String "." s'.
Proof.
  destruct s as [|c s]; [discriminate|].
  rewrite prefix_cons. intros H. apply andb_true_iff in H as [H _].
  apply Ascii.eqb_eq in H. subst c. now exists s.
Qed.

(** A digit and a period at the head of the text are a move number. *)
Lemma match_move_number_digit_dot (d : ascii) (r : string) :
  is_digit d = true ->
  exists n, match_move_number (String d (String "." r)) = Some (S n).
Proof.
  intros Hd. unfold match_move_number.
  rewrite (digit_not_space d Hd). unfold match_number_dot.
  cbn [span_digits]. rewrite Hd.
  change (is_digit ".") with false. cbv iota beta.
  eexists. reflexivity.
Qed.

(** The piece under way begins as the text does. *)
Lemma split_go_head (m : matcher) (s : string) (c : ascii) (t : string)
    (ts : list string) :
  split_go m s 0 = String c t :: ts -> exists s', s = String c s'.
Proof.
  destruct s as [|a s]; cbn [split_go]; [discriminate|].
  destruct (m (String a s)) as [[|n]|]; try discriminate;
    (destruct (split_go m s 0); intros H; inversion H; now exists s).
Qed.

Lemma split_move_number_no_digit_dot (s : string) :
  forall skip,
    Forall (fun t => digit_dot t = false) (split_go match_move_number s skip).
Proof.
  induction s as [|c s IH]; intros skip; cbn [split_go].
  - now constructor.
  - destruct skip as [|k]; [|apply IH].
    assert (Hlit : match split_go match_move_number s 0 with
                   | [] => False
                   | t :: _ =>
                       match_move_number (String c s) = None
                       \/ match_move_number (String c s) = Some 0 ->
                       is_digit c && prefix "." t = false
                   end).
    { destruct (split_go match_move_number s 0) as [|t ts] eqn:E;
        [now apply split_go_not_nil in E|].
      intros Hm. destruct (is_digit c) eqn:Hd; [|reflexivity].
      destruct (prefix "." t) eqn:Hp; [|reflexivity].
      apply prefix_dot in Hp as [t' ->].
      apply split_go_head in E as [s' ->].
      destruct (match_move_number_digit_dot c s' Hd) as [n Hn].
      rewrite Hn in Hm. destruct Hm; discriminate. }
    pose proof (IH 0) as IH0.
    destruct (match_move_number (String c s)) as [[|n]|] eqn:Hm.
    + destruct (split_go match_move_number s 0) as [|t ts]; [contradiction|].
      inversion IH0; subst. constructor; [|assumption].
      cbn [digit_dot]. rewrite Hlit by now right. assumption.
    + constructor; [reflexivity|apply IH].
    + destruct (split_go match_move_number s 0) as [|t ts]; [contradiction|].
      inversion IH0; subst. constructor; [|assumption].
      cbn [digit_dot]. rewrite Hlit by now left. assumption.
Qed.

Lemma span_digits_zero (s r : string) : span_digits s = (0, r) -> r = s.
Proof.
  destruct s as [|c s]; cbn [span_digits].
  - now inversion 1.
  - destruct (is_digit c); [destruct (span_digits s)|]; now inversion 1.
Qed.

Lemma span_digits_dot (s : string) :
  forall k r, span_digits s = (S k, String "." r) -> digit_dot s = true.
Proof.
  induction s as [|c s IH]; intros k r H; cbn [span_digits] in H.
  - discriminate H.
  - cbn [digit_dot]. destruct (is_digit c); [|discriminate H].
    destruct (span_digits s) as [k' r'] eqn:E.
    inversion H; subst. destruct k as [|k].
    + apply span_digits_zero in E. subst s.
      now rewrite prefix_cons, prefix_empty.
    + rewrite (IH _ _ eq_refl). apply orb_true_r.
Qed.

Lemma match_number_dot_some (s : string) (n : nat) :
  match_number_dot s = Some n -> digit_dot s = true.
Proof.
  unfold match_number_dot.
  destruct (span_digits s) as [[|k] [|c r]] eqn:E; try discriminate.
  destruct c as [[] [] [] [] [] [] [] []]; try discriminate.
  intros _. exact (span_digits_dot s k r E).
Qed.

Lemma match_move_number_some (s : string) (n : nat) :
  match_move_number s = Some n -> digit_dot s = true.
Proof.
  destruct s as [|c s]; [discriminate|].
  unfold match_move_number. destruct (is_space c).
  - destruct (match_number_dot s) as [k|] eqn:E; [|discriminate].
    intros _. cbn [digit_dot].
    rewrite (match_number_dot_some s k E). apply orb_true_r.
  - apply match_number_dot_some.
Qed.

(** A text without a digit before a period holds no match of the
    pattern of the move numbers. *)
Lemma no_digit_dot_no_match (s : string) :
  digit_dot s = false -> has_match match_move_number s = false.
Proof.
  induction s as [|c s IH]; intros H; cbn [has_match].
  - reflexivity.
  - destruct (match_move_number (String c s)) as [n|] eqn:E.
    + apply match_move_number_some in E. congruence.
    + apply IH. cbn [digit_dot] in H. now apply orb_false_iff in H.
Qed.

Lemma Forall_tl {A : Type} (P : A -> Prop) (l : list A) :
  Forall P l -> Forall P (tl l).
Proof. intros H. destruct l; [constructor|now inversion H]. Qed.

(** C6, as the code has it.  No token of the tokenizer holds a move
    number: no digit is followed by a period, and the pattern the text
    was split on matches nowhere in a token. *)
Theorem tokens_hold_no_move_number (pgn : string) (tokens : list string) :
  _get_moves_list pgn = inr tokens ->
  Forall (fun t => digit_dot t = false
                   /\ has_match match_move_number t = false) tokens.
Proof.
  unfold _get_moves_list.
  destruct (nth_error (str_split blank_line pgn) 1) as [moves|];
    [|discriminate].
  cbv zeta. intros H. inversion H; subst; clear H.
  apply Forall_tl. unfold re_split.
  eapply Forall_impl; [|apply split_move_number_no_digit_dot].
  intros t Ht. split; [exact Ht|now apply no_digit_dot_no_match].
Qed.

Lemma tokens_hold_no_move_number_witness :
  Forall (fun t => digit_dot t = false
                   /\ has_match match_move_number t = false)
    ["e4"; "e5"; "Nf3"].
Proof.
  apply (tokens_hold_no_move_number
           ("[Event x]" ++ blank_line
            ++ "1. e4 {[%clk 0:09:59.9]} 1... e5 {[%clk 0:09:58]} 2. Nf3 1-0")).
  reflexivity.
Defined.

(** C6, as it is worded, fails on its three other points: the blob
    below gives an empty token, and a token that keeps an annotation
    in braces (it runs over a line feed) and a result marker (put
    together by the removal of another one). *)
Lemma tokens_counterexample :
  let pgn := ("[Event x]" ++ blank_line
              ++ "1. 2. Qd3 {a" ++ String nl "b} 1-1-00")%string in
  let token := ("Qd3 {a" ++ String nl "b} 1-0")%string in
  _get_moves_list pgn = inr [""; token]
  /\ In "" [""; token]
  /\ contains ("{a" ++ String nl "b}") token = true
  /\ contains "1-0" token = true.
Proof. repeat split. now left. Qed.

(** C7.  The pattern [\s(\s)+?] matches two whitespace characters and
    no more: of a run of three, two characters remain, and the token
    that precedes the run keeps a trailing space. *)
Theorem whitespace_run_of_three_not_collapsed :
  re_sub match_ws_pair " " "1. e4   1. e5" = "1. e4  1. e5"
  /\ _get_moves_list
       ("[Event x]" ++ blank_line ++ "1. e4 {a} {b} 1... e5 {c} 1-0")
     = inr ["e4 "; "e5"].
Proof. split; reflexivity. Qed.

(* ================================================================== *)
(** ** The detector: what a finding means *)

Lemma contains_app_l_false (a b s : string) :
  contains a s = false -> contains (a ++ b) s = false.
Proof.
  intros H. destruct (contains (a ++ b) s) eqn:E; [|reflexivity].
  apply contains_app_l in E. congruence.
Qed.

Lemma step_normal_no_capture (i : nat) (move : string) (st : status) :
  contains ("x" ++ square st (flip_color (to_move st))) move = false ->
  step i move None st = Continue None (move_queen move st).
Proof. intros H. unfold step. cbn [is_not_none andb]. now rewrite H. Qed.

Lemma step_pending_contested (i : nat) (move : string) (f : finding)
    (st : status) :
  contested move = true ->
  step i move (Some f) st =
  if contains ("x" ++ square st (flip_color (to_move st))) move
  then Return None
  else Continue (Some f) (move_queen move st).
Proof.
  unfold contested, step. intros H. cbn [is_not_none andb].
  rewrite <- negb_orb, H. reflexivity.
Qed.

(** From the pending state, a finding comes out as it stands, on the
    first move that holds neither [x] nor [#]. *)
Lemma replay_pending_some (moves : list string) :
  forall i f st r,
    replay i moves (Some f) st = Some r ->
    r = f
    /\ exists mid quiet rest,
         moves = mid ++ quiet :: rest
         /\ forallb contested mid = true
         /\ contested quiet = false.
Proof.
  induction moves as [|m moves IH]; intros i f st r H; cbn [replay] in H.
  - discriminate H.
  - destruct (contested m) eqn:Hm.
    + rewrite (step_pending_contested _ _ _ _ Hm) in H.
      destruct (contains _ m); [discriminate H|].
      destruct (IH _ _ _ _ H) as (-> & mid & quiet & rest & -> & Hmid & Hq).
      split; [reflexivity|]. exists (m :: mid), quiet, rest.
      repeat split; [|exact Hq]. cbn [forallb]. now rewrite Hm, Hmid.
    + unfold contested in Hm. apply orb_false_iff in Hm as [Hx Hh].
      rewrite (step_pending_quiet _ _ _ _ Hx Hh) in H.
      inversion H; subst. split; [reflexivity|].
      exists [], m, moves. repeat split. unfold contested.
      now rewrite Hx, Hh.
Qed.

Lemma replay_normal_some (moves : list string) :
  forall i st r,
    replay i moves None st = Some r ->
    exists pre capture mid quiet rest st',
      moves = pre ++ capture :: mid ++ quiet :: rest
      /\ r = (full_move (i + List.length pre), capture)
      /\ reach_from i pre None st = Continue None st'
      /\ contains ("x" ++ square st' (flip_color (to_move st'))) capture = true
      /\ forallb contested mid = true
      /\ contested quiet = false.
Proof.
  induction moves as [|m moves IH]; intros i st r H; cbn [replay] in H.
  - discriminate H.
  - destruct (contains ("x" ++ square st (flip_color (to_move st))) m) eqn:Hc.
    + rewrite (step_normal_capture _ _ _ Hc) in H.
      destruct (replay_pending_some _ _ _ _ _ H)
        as (-> & mid & quiet & rest & -> & Hmid & Hq).
      exists [], m, mid, quiet, rest, st. cbn [List.length app reach_from].
      rewrite Nat.add_0_r. now repeat split.
    + rewrite (step_normal_no_capture _ _ _ Hc) in H.
      destruct (IH _ _ _ H)
        as (pre & capture & mid & quiet & rest & st' & -> & -> & Hr & Hcap
            & Hmid & Hq).
      exists (m :: pre), capture, mid, quiet, rest, st'.
      cbn [List.length app reach_from].
      rewrite (step_normal_no_capture _ _ _ Hc), Nat.add_succ_r.
      now repeat split.
Qed.

Lemma finding_shape (moves : list string) (n : nat)
    (text : string) :
  _get_botez_gambit moves = Some (n, text) ->
  exists pre mid quiet rest st,
    moves = pre ++ text :: mid ++ quiet :: rest
    /\ n = full_move (List.length pre)
    /\ reach pre = Continue None st
    /\ contains ("x" ++ square st (flip_color (to_move st))) text = true
    /\ forallb contested mid = true
    /\ contested quiet = false.
Proof.
  unfold _get_botez_gambit, reach. intros H.
  destruct (replay_normal_some _ _ _ _ H)
    as (pre & capture & mid & quiet & rest & st & -> & E & Hr & Hcap & Hmid
        & Hq).
  inversion E; subst.
  exists pre, mid, quiet, rest, st. now repeat split.
Qed.

(** X1. A finding is always the text of a token that takes on the
    square tracked for the opponent's queen, met in the normal state,
    with the number of its full move; the tokens that follow it hold
    [x] or [#] up to one that holds neither, which must exist. *)
Theorem finding_is_uncontested_capture (moves : list string) (n : nat)
    (text : string) :
  _get_botez_gambit moves = Some (n, text) ->
  exists pre mid quiet rest st,
    moves = pre ++ text :: mid ++ quiet :: rest
    /\ n = full_move (List.length pre)
    /\ reach pre = Continue None st
    /\ contains ("x" ++ square st (flip_color (to_move st))) text = true
    /\ forallb contested mid = true
    /\ contested quiet = false.
Proof.
  unfold _get_botez_gambit, reach. intros H.
  destruct (replay_normal_some _ _ _ _ H)
    as (pre & capture & mid & quiet & rest & st & -> & E & Hr & Hcap & Hmid
        & Hq).
  inversion E; subst.
  exists pre, mid, quiet, rest, st. now repeat split.
Qed.

Lemma finding_is_uncontested_capture_witness :
  exists pre mid quiet rest st,
    ["e4"; "Nf6"; "Qg4"; "Nxg4"; "Bxa6"; "a3"]
    = pre ++ "Nxg4" :: mid ++ quiet :: rest
    /\ 2 = full_move (List.length pre)
    /\ reach pre = Continue None st
    /\ contains ("x" ++ square st (flip_color (to_move st))) "Nxg4" = true
    /\ forallb contested mid = true
    /\ contested quiet = false.
Proof.
  apply (finding_is_uncontested_capture
           ["e4"; "Nf6"; "Qg4"; "Nxg4"; "Bxa6"; "a3"] 2 "Nxg4").
  reflexivity.
Defined.

(** X2. The number of a finding is at least 1 and at most half the
    number of tokens; a game of fewer than two tokens has no finding. *)
Theorem finding_number_bounds (moves : list string) (n : nat) (text : string) :
  _get_botez_gambit moves = Some (n, text) ->
  1 <= n /\ 2 * n <= List.length moves.
Proof.
  intros H.
  destruct (finding_shape _ _ _ H)
    as (pre & mid & quiet & rest & st & -> & -> & _).
  rewrite length_app. cbn [List.length]. rewrite length_app. cbn [List.length].
  unfold full_move.
  pose proof (Nat.div_mod_eq (List.length pre + 1 + 1) 2) as E.
  pose proof (Nat.mod_upper_bound (List.length pre + 1 + 1) 2) as B.
  lia.
Qed.

Lemma finding_number_bounds_witness :
  1 <= 2 /\ 2 * 2 <= List.length ["e4"; "Nf6"; "Qg4"; "Nxg4"; "a3"].
Proof.
  apply (finding_number_bounds ["e4"; "Nf6"; "Qg4"; "Nxg4"; "a3"] 2 "Nxg4").
  reflexivity.
Defined.

(** X3. A game in which no token holds the capture marker has no
    finding. *)
Theorem no_capture_no_finding (moves : list string) :
  Forall (fun move => contains "x" move = false) moves ->
  _get_botez_gambit moves = None.
Proof.
  intros Hall.
  destruct (_get_botez_gambit moves) as [[n text]|] eqn:E; [|reflexivity].
  destruct (finding_shape _ _ _ E)
    as (pre & mid & quiet & rest & st & -> & _ & _ & Hcap & _).
  apply Forall_app in Hall as [_ Hall]. inversion Hall; subst.
  apply contains_app_l in Hcap. congruence.
Qed.

Lemma no_capture_no_finding_witness :
  _get_botez_gambit ["e4"; "e5"; "Qh5"; "Nc6"; "Bc4"; "Nf6"] = None.
Proof.
  apply no_capture_no_finding. repeat constructor.
Defined.

(** X4. Once the loop has returned, the tokens that follow are not
    read: the answer on a game is the answer on the prefix that
    decided it. *)
Theorem decided_prefix_decides (pre rest : list string) (r : option finding) :
  reach pre = Return r ->
  _get_botez_gambit (pre ++ rest) = r /\ _get_botez_gambit pre = r.
Proof.
  intros H. split.
  - now rewrite detect_app, H.
  - rewrite <- (app_nil_r pre) at 1. now rewrite detect_app, H.
Qed.

Lemma decided_prefix_decides_witness :
  _get_botez_gambit (["e4"; "Nf6"; "Qg4"; "Nxg4"; "a3"] ++ ["Qxd1"; "Kxd1"])
  = Some (2, "Nxg4")
  /\ _get_botez_gambit ["e4"; "Nf6"; "Qg4"; "Nxg4"; "a3"] = Some (2, "Nxg4").
Proof.
  apply (decided_prefix_decides ["e4"; "Nf6"; "Qg4"; "Nxg4"; "a3"]
           ["Qxd1"; "Kxd1"] (Some (2, "Nxg4"))).
  reflexivity.
Defined.

Lemma move_queen_on_board (move : string) (st : status) :
  plain_token move -> on_board st -> on_board (move_queen move st).
Proof.
  intros [HQ|(sq & Hsq & Hmove)] [Hw Hb].
  - rewrite (move_queen_not_queen _ _ HQ). now split.
  - destruct (queen_destination_square sq move Hsq Hmove) as [HQ Hdest].
    rewrite (move_queen_is_queen _ _ HQ), Hdest.
    destruct st as [w b []]; now split.
Qed.

Lemma reach_from_on_board (moves : list string) :
  forall i fq st fq' st',
    Forall plain_token moves ->
    on_board st ->
    reach_from i moves fq st = Continue fq' st' ->
    on_board st'.
Proof.
  induction moves as [|m moves IH]; intros i fq st fq' st' Hall Hst H;
    cbn [reach_from] in H.
  - now inversion H; subst.
  - inversion Hall; subst.
    destruct (step i m fq st) as [r|fq1 st1] eqn:Hs; [discriminate H|].
    apply (IH _ _ _ _ _ H3) in H; [exact H|].
    rewrite (step_continue_status _ _ _ _ _ _ Hs).
    now apply move_queen_on_board.
Qed.

(** X5. As long as every queen move of the game is written [Q<sq>],
    [Qx<sq>], [Q<sq>+] or [Qx<sq>+] for a board square, the squares
    tracked for both queens are board squares. *)
Theorem tracked_squares_on_board (pre : list string) (fq : option finding)
    (st : status) :
  Forall plain_token pre ->
  reach pre = Continue fq st ->
  In (white_sq st) board_squares /\ In (black_sq st) board_squares.
Proof.
  intros Hall H.
  apply (reach_from_on_board pre 0 None initial_status fq st Hall); [|exact H].
  split; cbn; tauto.
Qed.

Lemma tracked_squares_on_board_witness :
  In "h5" board_squares /\ In "d8" board_squares.
Proof.
  apply (tracked_squares_on_board ["e4"; "e5"; "Qh5"] None
           (mkStatus "h5" "d8" black)).
  - constructor; [left; reflexivity|].
    constructor; [left; reflexivity|].
    constructor; [|constructor].
    right. exists "h5". split; cbn; tauto.
  - reflexivity.
Defined.

(* ================================================================== *)
(** ** The collection: the roster filter and the register *)

Section CollectorFacts.
Context {game : Type} `{Game game}.

Lemma filter_loop_filter (games : list game) :
  forall result, filter_loop games result = result ++ filter on_roster games.
Proof.
  induction games as [|g games IH]; intros result; cbn [filter_loop filter].
  - now rewrite app_nil_r.
  - rewrite IH. unfold on_roster.
    destruct (name_in (white_username g) PLAYERS_NAMES);
      [destruct (name_in (black_username g) PLAYERS_NAMES)|]; cbn [andb];
      [now rewrite <- app_assoc|reflexivity|reflexivity].
Qed.

(** X6. [_filter_games] keeps the games whose two players are both in
    [PLAYERS_NAMES], all of them and in their order. *)
Theorem filter_games_keeps_roster_games (games : list game) :
  _filter_games games = filter on_roster games.
Proof. unfold _filter_games. now rewrite filter_loop_filter. Qed.

Lemma url_known_iff (store : list game) (g : game) :
  url_known store g = true <-> In (url g) (map url store).
Proof.
  induction store as [|old store IH]; cbn [url_known map In].
  - split; [discriminate|tauto].
  - destruct (String.eqb (url old) (url g)) eqn:E.
    + apply String.eqb_eq in E. tauto.
    + apply String.eqb_neq in E. rewrite IH. tauto.
Qed.

Lemma NoDup_snoc {A : Type} (l : list A) (x : A) :
  NoDup l -> ~ In x l -> NoDup (l ++ [x]).
Proof.
  induction l as [|a l IH]; intros Hl Hx; cbn [app].
  - constructor; [tauto|constructor].
  - inversion Hl; subst. constructor.
    + rewrite in_app_iff. cbn [In] in *. intuition congruence.
    + apply IH; [assumption|]. cbn [In] in Hx. tauto.
Qed.

Lemma register_keeps_nodup (store games : list game) :
  NoDup (map url store) ->
  NoDup (map url (_register_games store games)).
Proof.
  revert store. induction games as [|g games IH]; intros store Hs;
    cbn [_register_games]; [exact Hs|].
  apply IH. destruct (url_known store g) eqn:E; [exact Hs|].
  rewrite map_app. cbn [map]. apply NoDup_snoc; [exact Hs|].
  rewrite <- url_known_iff. congruence.
Qed.

(** X7. [_register_games] keeps the urls of the register distinct. *)
Theorem register_games_keeps_urls_distinct (store games : list game) :
  NoDup (map url store) ->
  NoDup (map url (_register_games store games)).
Proof.
  revert store. induction games as [|g games IH]; intros store Hs;
    cbn [_register_games]; [exact Hs|].
  apply IH. destruct (url_known store g) eqn:E; [exact Hs|].
  rewrite map_app. cbn [map]. apply NoDup_snoc; [exact Hs|].
  rewrite <- url_known_iff. congruence.
Qed.

Lemma register_games_extends (store games : list game) :
  exists added,
    _register_games store games = store ++ added
    /\ incl added games.
Proof.
  revert store. induction games as [|g games IH]; intros store;
    cbn [_register_games].
  - exists []. split; [now rewrite app_nil_r|easy].
  - destruct (url_known store g).
    + destruct (IH store) as (added & E & Hin).
      exists added. split; [exact E|]. now apply incl_tl.
    + destruct (IH (store ++ [g])) as (added & E & Hin).
      exists (g :: added). split; [now rewrite E, <- app_assoc|].
      apply incl_cons; [now left|now apply incl_tl].
Qed.

Lemma register_games_urls (store games : list game) (u : string) :
  In u (map url (_register_games store games))
  <-> In u (map url store) \/ In u (map url games).
Proof.
  revert store. induction games as [|g games IH]; intros store;
    cbn [_register_games map In]; [tauto|].
  rewrite IH. destruct (url_known store g) eqn:E.
  - apply url_known_iff in E. intuition (subst; auto).
  - rewrite map_app, in_app_iff. cbn [map In]. tauto.
Qed.

(** X8. [_register_games] leaves the games of the register in place
    and appends games of its argument; the urls of the result are
    those of the register and those of the argument. *)
Theorem register_games_appends (store games : list game) :
  (exists added,
     _register_games store games = store ++ added /\ incl added games)
  /\ forall u,
       In u (map url (_register_games store games))
       <-> In u (map url store) \/ In u (map url games).
Proof.
  split; [apply register_games_extends|intros u; apply register_games_urls].
Qed.

Lemma register_games_known (store games : list game) :
  (forall g, In g games -> url_known store g = true) ->
  _register_games store games = store.
Proof.
  induction games as [|g games IH]; intros Hk; cbn [_register_games];
    [reflexivity|].
  rewrite (Hk g) by now left.
  apply IH. intros g' Hg'. apply Hk. now right.
Qed.

(** X9. Registering the same games a second time changes nothing. *)
Theorem register_games_idempotent (store games : list game) :
  _register_games (_register_games store games) games
  = _register_games store games.
Proof.
  apply register_games_known. intros g Hg.
  apply url_known_iff, register_games_urls. right. now apply in_map.
Qed.

End CollectorFacts.

Lemma register_games_keeps_urls_distinct_witness :
  NoDup (map url
           (_register_games [mkGame "a" "b" "u1" ""]
              [mkGame "c" "d" "u2" ""; mkGame "e" "f" "u1" "";
               mkGame "g" "h" "u2" ""])).
Proof.
  apply register_games_keeps_urls_distinct.
  repeat constructor. cbn. tauto.
Defined.

(* ================================================================== *)
(** ** The collection: the months of the archives *)

Lemma contains_char_eq (a c : ascii) (s : string) :
  contains (String a "") (String c s)
  = Ascii.eqb a c || contains (String a "") s.
Proof.
  cbn [contains]. now rewrite prefix_cons, prefix_empty, andb_true_r.
Qed.

Lemma prefix_app_inv (p s : string) :
  prefix p s = true -> exists r, s = (p ++ r)%string.
Proof.
  revert s. induction p as [|a p IH]; intros s Hp.
  - now exists s.
  - destruct s as [|c s]; [discriminate Hp|].
    rewrite prefix_cons in Hp. apply andb_true_iff in Hp as [Ha Hp].
    apply Ascii.eqb_eq in Ha. subst c.
    destruct (IH s Hp) as [r ->]. now exists r.
Qed.

Lemma prefix_app_same (p r : string) : prefix p (p ++ r) = true.
Proof.
  induction p as [|a p IH]; [apply prefix_empty|].
  change (String a p ++ r)%string with (String a (p ++ r)).
  now rewrite prefix_cons, Ascii.eqb_refl.
Qed.

Lemma month_at_head_iff (s : string) :
  month_at_head s = true
  <-> exists d b,
        s = ("/2021/0" ++ String d b)%string
        /\ In d (list_ascii_of_string "34567").
Proof.
  unfold month_at_head. split.
  - intros Hm. apply andb_true_iff in Hm as [Hp Hd].
    apply prefix_app_inv in Hp as [r ->].
    destruct r as [|d b]; [discriminate Hd|].
    exists d, b. split; [reflexivity|].
    cbn [append String.get] in Hd.
    apply existsb_exists in Hd as (x & Hx & E).
    apply Ascii.eqb_eq in E. now subst x.
  - intros (d & b & -> & Hd).
    rewrite prefix_app_same. cbn [append String.get andb].
    apply existsb_exists. exists d. split; [exact Hd|apply Ascii.eqb_refl].
Qed.

Lemma month_after_dots_iff (s : string) :
  month_after_dots s = true
  <-> exists a t,
        s = (a ++ t)%string
        /\ contains (String nl "") a = false
        /\ month_at_head t = true.
Proof.
  induction s as [|c s IH]; cbn [month_after_dots].
  - split.
    + rewrite orb_false_r. intros Hm. now exists "", "".
    + intros (a & t & E & _ & Ht). destruct a; [|discriminate E].
      cbn [append] in E. subst t. now rewrite Ht.
  - split.
    + intros Hm. apply orb_true_iff in Hm as [Hm|Hm].
      * now exists "", (String c s).
      * apply andb_true_iff in Hm as [Hc Hm].
        apply IH in Hm as (a & t & -> & Ha & Ht).
        exists (String c a), t. repeat split; [|exact Ht].
        rewrite contains_char_eq, Ha, orb_false_r.
        unfold is_nl in Hc. rewrite Ascii.eqb_sym.
        now apply negb_true_iff in Hc.
    + intros (a & t & E & Ha & Ht). destruct a as [|c' a].
      * cbn [append] in E. subst t. now rewrite Ht.
      * cbn [append] in E. inversion E; subst c' s.
        rewrite contains_char_eq in Ha.
        apply orb_false_iff in Ha as [Hc Ha].
        assert (Hm : month_after_dots (a ++ t) = true).
        { apply IH. now exists a, t. }
        rewrite Hm. unfold is_nl. rewrite Ascii.eqb_sym, Hc.
        apply orb_true_r.
Qed.

(** X10. [TIME_PERIOD_REGEX] matches an archive link when, and only
    when, the link is a non-empty text without line feed followed by
    [/2021/0] and one of the digits 3 to 7; what comes after the digit
    does not matter. *)
Theorem time_period_matches_iff (s : string) :
  TIME_PERIOD_REGEX s = true
  <-> exists a d b,
        s = (a ++ "/2021/0" ++ String d b)%string
        /\ a <> ""
        /\ contains (String nl "") a = false
        /\ In d (list_ascii_of_string "34567").
Proof.
  unfold TIME_PERIOD_REGEX. split.
  - destruct s as [|c s]; [discriminate|]. intros Hm.
    apply andb_true_iff in Hm as [Hc Hm].
    apply month_after_dots_iff in Hm as (a & t & -> & Ha & Ht).
    apply month_at_head_iff in Ht as (d & b & -> & Hd).
    exists (String c a), d, b. repeat split; [discriminate| |exact Hd].
    rewrite contains_char_eq, Ha, orb_false_r.
    unfold is_nl in Hc. rewrite Ascii.eqb_sym.
    now apply negb_true_iff in Hc.
  - intros (a & d & b & -> & Hne & Ha & Hd).
    destruct a as [|c a]; [contradiction|]. cbn [append].
    rewrite contains_char_eq in Ha. apply orb_false_iff in Ha as [Hc Ha].
    unfold is_nl. rewrite Ascii.eqb_sym, Hc. cbn [negb andb].
    apply month_after_dots_iff. exists a, ("/2021/0" ++ String d b)%string.
    repeat split; [exact Ha|].
    apply month_at_head_iff. now exists d, b.
Qed.

Example archive_of_march_2021 :
  TIME_PERIOD_REGEX "https://api.chess.com/pub/player/vaseka/games/2021/03"
  = true.
Proof. reflexivity. Qed.

Example archive_of_august_2021 :
  TIME_PERIOD_REGEX "https://api.chess.com/pub/player/vaseka/games/2021/08"
  = false.
Proof. reflexivity. Qed.

(* ================================================================== *)
(** ** The collection: the requests *)

Section CollectFacts.
Context {game : Type} `{Game game} {world : Type} `{Server world game}.

Lemma register_filtered_sound (store games : list game) :
  sound_register store ->
  sound_register (_register_games store (_filter_games games))
  /\ exists added,
       _register_games store (_filter_games games) = store ++ added.
Proof.
  intros [Hd Hr].
  destruct (register_games_extends store (_filter_games games))
    as (added & E & Hin).
  split; [split|now exists added].
  - now apply register_keeps_nodup.
  - rewrite E. apply Forall_app. split; [exact Hr|].
    apply Forall_forall. intros g Hg. apply Hin in Hg.
    unfold _filter_games in Hg. rewrite filter_loop_filter in Hg.
    now apply filter_In in Hg.
Qed.

Lemma collect_archives_sound (time_period : string -> bool)
    (archives : list string) :
  forall store w store' w',
    collect_archives time_period archives store w = (inr store', w') ->
    sound_register store ->
    sound_register store' /\ exists added, store' = store ++ added.
Proof.
  induction archives as [|archive archives IH]; intros store w store' w' Hc Hs;
    cbn [collect_archives] in Hc.
  - inversion Hc; subst. split; [exact Hs|]. exists []. now rewrite app_nil_r.
  - destruct (time_period archive); [|now apply (IH _ _ _ _ Hc)].
    destruct (_get_data archive true w) as [[content|] w1]; [|discriminate Hc].
    destruct (doc_games content) as [games|]; [|discriminate Hc].
    destruct (register_filtered_sound store games Hs) as [Hs1 [added1 E1]].
    destruct (IH _ _ _ _ Hc Hs1) as [Hs' [added E]].
    split; [exact Hs'|]. exists (added1 ++ added).
    now rewrite E, E1, <- app_assoc.
Qed.

(** X11. When [_collect_games] comes to its end, whatever the server
    has answered, a register that held one game per url, all between
    players of the roster, still does, and the games it held are at
    the head of the new register. *)
Theorem collect_games_keeps_register_sound (players : list string)
    (time_period : string -> bool) :
  forall store w store' w',
    _collect_games players time_period store w = (inr store', w') ->
    NoDup (map url store) ->
    Forall (fun g => on_roster g = true) store ->
    NoDup (map url store')
    /\ Forall (fun g => on_roster g = true) store'
    /\ exists added, store' = store ++ added.
Proof.
  induction players as [|player players IH];
    intros store w store' w' Hc Hd Hr; cbn [_collect_games] in Hc.
  - inversion Hc; subst. repeat split; try assumption.
    exists []. now rewrite app_nil_r.
  - destruct (_get_data _ false w) as [[content|] w1]; [|discriminate Hc].
    destruct (doc_archives content) as [archives|]; [|discriminate Hc].
    destruct (collect_archives time_period archives store w1)
      as [[e|store1] w2] eqn:Ea; [discriminate Hc|].
    destruct (collect_archives_sound _ _ _ _ _ _ Ea (conj Hd Hr))
      as [[Hd1 Hr1] [added1 E1]].
    destruct (IH _ _ _ _ Hc Hd1 Hr1) as (Hd' & Hr' & added & E).
    repeat split; try assumption. exists (added1 ++ added).
    now rewrite E, E1, <- app_assoc.
Qed.

(** X12. An archive whose link is not of the period is not requested:
    with no link of the period, the inner loop leaves the register and
    the world as they are. *)
Theorem archives_out_of_period_not_requested (time_period : string -> bool)
    (archives : list string) (store : list game) (w : world) :
  Forall (fun archive => time_period archive = false) archives ->
  collect_archives time_period archives store w = (inr store, w).
Proof.
  induction 1 as [|archive archives Ha _ IH]; cbn [collect_archives];
    [reflexivity|].
  now rewrite Ha.
Qed.

(** X13. An answer to the request of a player's archive list with a
    status other than 200 ends [_collect_games] with [TypeError]: the
    [None] of [_get_data] is subscripted. *)
Theorem collect_games_archive_list_refused (player : string)
    (players : list string) (time_period : string -> bool)
    (store : list game) (w w' : world) (status_code : nat)
    (content : document game) :
  requests_get (API_ROOT ++ "/" ++ "player/" ++ player ++ "/games/archives") w
  = ((status_code, content), w') ->
  status_code <> 200 ->
  _collect_games (player :: players) time_period store w
  = (inl TypeError, w').
Proof.
  intros Hget Hs. cbn [_collect_games]. unfold _get_data.
  rewrite Hget.
  apply Nat.eqb_neq in Hs. now rewrite Hs.
Qed.

End CollectFacts.

Lemma collect_games_keeps_register_sound_witness :
  let g := mkGame "vaseka" "DK97" "https://www.chess.com/game/live/1" "" in
  NoDup (map url [g])
  /\ Forall (fun g => on_roster g = true) [g]
  /\ exists added, [g] = [] ++ added.
Proof.
  intros g.
  apply (collect_games_keeps_register_sound ["vaseka"] TIME_PERIOD_REGEX []
           [ (200, mkDocument
                     (Some ["https://api.chess.com/pub/player/vaseka/games/2021/03";
                            "https://api.chess.com/pub/player/vaseka/games/2021/08"])
                     None);
             (200, mkDocument None
                     (Some [g;
                            mkGame "vaseka" "stranger"
                              "https://www.chess.com/game/live/2" "";
                            mkGame "DK97" "vaseka"
                              "https://www.chess.com/game/live/1" ""])) ]
           [g] []).
  - reflexivity.
  - constructor.
  - constructor.
Defined.

Lemma archives_out_of_period_not_requested_witness :
  collect_archives TIME_PERIOD_REGEX
    ["https://api.chess.com/pub/player/vaseka/games/2021/08";
     "https://api.chess.com/pub/player/vaseka/games/2020/03"]
    [mkGame "vaseka" "DK97" "u" ""]
    [(200, mkDocument None (Some [mkGame "DK97" "vaseka" "v" ""]))]
  = (inr [mkGame "vaseka" "DK97" "u" ""],
     [(200, mkDocument None (Some [mkGame "DK97" "vaseka" "v" ""]))]).
Proof.
  apply archives_out_of_period_not_requested.
  repeat constructor.
Defined.

Lemma collect_games_archive_list_refused_witness :
  _collect_games ["vaseka"; "DK97"] TIME_PERIOD_REGEX
    ([] : list chess_game) [(404, mkDocument None None)]
  = (inl TypeError, []).
Proof.
  apply (collect_games_archive_list_refused "vaseka" ["DK97"]
           TIME_PERIOD_REGEX [] [(404, mkDocument None None)] [] 404
           (mkDocument None None)).
  - reflexivity.
  - discriminate.
Defined.

(* ================================================================== *)
(** ** Scanning a text piece by piece *)

Lemma append_assoc_s (a b c : string) :
  ((a ++ b) ++ c)%string = (a ++ b ++ c)%string.
Proof. induction a as [|x a IH]; cbn [append]; congruence. Qed.

Lemma all_chars_app (P : ascii -> bool) (a b : string) :
  all_chars P (a ++ b) = all_chars P a && all_chars P b.
Proof.
  induction a as [|c a IH]; cbn [append all_chars]; [reflexivity|].
  now rewrite IH, andb_assoc.
Qed.

Lemma all_chars_impl (P Q : ascii -> bool) (s : string) :
  (forall c, P c = true -> Q c = true) ->
  all_chars P s = true -> all_chars Q s = true.
Proof.
  intros HPQ. induction s as [|c s IH]; cbn [all_chars]; [reflexivity|].
  intros H. apply andb_true_iff in H as [Hc Hs].
  now rewrite (HPQ c Hc), (IH Hs).
Qed.

Section ScanFacts.
Variable m : matcher.

Lemma sub_go_step (r : string) (c : ascii) (s : string) :
  m (String c s) = None ->
  sub_go m r (String c s) 0 = String c (sub_go m r s 0).
Proof. intros Hm. cbn [sub_go]. now rewrite Hm. Qed.

Lemma sub_go_skip_char (r : string) (c : ascii) (s : string) (k : nat) :
  sub_go m r (String c s) (S k) = sub_go m r s k.
Proof. reflexivity. Qed.

Lemma split_go_skip_char (c : ascii) (s : string) (k : nat) :
  split_go m (String c s) (S k) = split_go m s k.
Proof. reflexivity. Qed.

Lemma sub_go_skip (r x b : string) (k : nat) :
  sub_go m r (x ++ b) (String.length x + k) = sub_go m r b k.
Proof. induction x as [|c x IH]; cbn [append String.length sub_go plus]; auto. Qed.

Lemma sub_go_match (r : string) (c : ascii) (s : string) (n : nat) :
  m (String c s) = Some (S n) ->
  sub_go m r (String c s) 0 = (r ++ sub_go m r s n)%string.
Proof. intros Hm. cbn [sub_go]. now rewrite Hm. Qed.

Lemma sub_go_no_match_in (r a b : string) :
  no_match_in m a b ->
  sub_go m r (a ++ b) 0 = (a ++ sub_go m r b 0)%string.
Proof.
  induction a as [|c a IH]; cbn [no_match_in]; [reflexivity|].
  intros [Hm Ha]. cbn [append] in *.
  now rewrite (sub_go_step _ _ _ Hm), (IH Ha).
Qed.

Lemma split_go_skip (x b : string) (k : nat) :
  split_go m (x ++ b) (String.length x + k) = split_go m b k.
Proof.
  induction x as [|c x IH]; cbn [append String.length split_go plus]; auto.
Qed.

Lemma split_go_match (c : ascii) (s : string) (n : nat) :
  m (String c s) = Some (S n) ->
  split_go m (String c s) 0 = "" :: split_go m s n.
Proof. intros Hm. cbn [split_go]. now rewrite Hm. Qed.

Lemma split_go_no_match_in (a b t : string) (ts : list string) :
  no_match_in m a b ->
  split_go m b 0 = t :: ts ->
  split_go m (a ++ b) 0 = (a ++ t)%string :: ts.
Proof.
  intros Ha Hb. induction a as [|c a IH]; cbn [no_match_in] in Ha;
    [exact Hb|].
  destruct Ha as [Hm Ha]. cbn [append] in *. cbn [split_go].
  now rewrite Hm, (IH Ha).
Qed.

(** A matcher that never matches at a character of the class [P]
    does not match in a text of such characters. *)
Lemma no_match_in_class (P : ascii -> bool) (a b : string) :
  (forall c s, P c = true -> m (String c s) = None) ->
  all_chars P a = true ->
  no_match_in m a b.
Proof.
  intros HP. induction a as [|c a IH]; cbn [all_chars no_match_in];
    [easy|].
  intros H. apply andb_true_iff in H as [Hc Ha].
  split; [now apply HP|now apply IH].
Qed.

End ScanFacts.

(* ================================================================== *)
(** ** The tokenizer on an export: the annotations *)

Ltac char_cases c := destruct c as [[] [] [] [] [] [] [] []].

Ltac solve_class :=
  let c := fresh "c" in intros c; char_cases c; vm_compute; congruence.

Lemma annotation_head (c : ascii) (s : string) :
  not_char "{" c = true -> match_annotation (String c s) = None.
Proof.
  unfold not_char. char_cases c; intros E; try reflexivity.
  vm_compute in E. discriminate E.
Qed.

Lemma digit_class_brace : forall c, is_digit c = true -> not_char "{" c = true.
Proof. solve_class. Qed.

Lemma move_class_brace :
  forall c, is_move_char c = true -> not_char "{" c = true.
Proof. solve_class. Qed.

Lemma lazy_close_clock (x b : string) :
  all_chars is_clock_char x = true ->
  lazy_close (x ++ String "}" b) = Some (S (String.length x)).
Proof.
  induction x as [|c x IH]; cbn [all_chars append lazy_close String.length].
  - intros _. now rewrite Ascii.eqb_refl.
  - intros H. apply andb_true_iff in H as [Hc Hx].
    unfold is_clock_char in Hc. apply andb_true_iff in Hc as [Hn Hb].
    apply negb_true_iff in Hn, Hb. rewrite Hb, Hn, (IH Hx). reflexivity.
Qed.

Lemma match_annotation_clock (c : ascii) (x b : string) :
  all_chars is_clock_char (String c x) = true ->
  match_annotation (String "{" (String c (x ++ String "}" b)))
  = Some (S (S (S (String.length x)))).
Proof.
  cbn [all_chars]. intros H. apply andb_true_iff in H as [Hc Hx].
  unfold is_clock_char in Hc. apply andb_true_iff in Hc as [Hn _].
  apply negb_true_iff in Hn.
  unfold match_annotation. cbv iota beta.
  rewrite Hn, (lazy_close_clock _ _ Hx). reflexivity.
Qed.

Lemma wf_ply_fields (p : ply) :
  wf_ply p = true ->
  (nonempty (ply_number p) = true /\ all_chars is_digit (ply_number p) = true)
  /\ (nonempty (ply_move p) = true
      /\ all_chars is_move_char (ply_move p) = true)
  /\ (nonempty (ply_clock p) = true
      /\ all_chars is_clock_char (ply_clock p) = true).
Proof.
  unfold wf_ply. intros H.
  repeat (apply andb_true_iff in H as [H ?]). tauto.
Qed.

Lemma annotations_removed (plies : list ply) (tail : string) :
  forallb wf_ply plies = true ->
  re_sub match_annotation "" (layout export_dots export_annot plies tail)
  = layout export_dots (fun _ => "  ") plies
      (re_sub match_annotation "" tail).
Proof.
  unfold re_sub. induction plies as [|p plies IH]; cbn [layout forallb];
    [reflexivity|].
  intros H. apply andb_true_iff in H as [Hp Hps].
  destruct (wf_ply_fields p Hp) as ((_ & Hnum) & (_ & Hmove) & (Hne & Hclock)).
  rewrite sub_go_no_match_in
    by (apply (no_match_in_class _ (not_char "{"));
        [apply annotation_head
        |exact (all_chars_impl _ _ _ digit_class_brace Hnum)]).
  f_equal.
  assert (Hrest :
    sub_go match_annotation ""
      (ply_move p ++ export_annot p
       ++ layout export_dots export_annot plies tail) 0
    = (ply_move p ++ "  "
       ++ layout export_dots (fun _ => "  ") plies
            (sub_go match_annotation "" tail 0))%string).
  { rewrite sub_go_no_match_in
      by (apply (no_match_in_class _ (not_char "{"));
          [apply annotation_head
          |exact (all_chars_impl _ _ _ move_class_brace Hmove)]).
    f_equal.
    change (export_annot p) with (" {" ++ ply_clock p ++ "} ")%string.
    destruct (ply_clock p) as [|c x]; [discriminate Hne|].
    cbn [append]. rewrite append_assoc_s. cbn [append].
    rewrite sub_go_step by reflexivity. f_equal.
    rewrite (sub_go_match _ _ _ _ _ (match_annotation_clock c x _ Hclock)).
    cbn [append]. rewrite sub_go_skip_char.
    rewrite <- (Nat.add_1_r (String.length x)), sub_go_skip.
    rewrite sub_go_skip_char, sub_go_step by reflexivity.
    now rewrite (IH Hps). }
  unfold export_dots at 1 3. destruct (ply_black p); cbn [append].
  - rewrite !sub_go_step by reflexivity. now rewrite Hrest.
  - rewrite !sub_go_step by reflexivity. now rewrite Hrest.
Qed.

(* ================================================================== *)
(** ** The tokenizer on an export: the periods and the result *)

Lemma not_char_eqb (x c : ascii) :
  not_char x c = true -> Ascii.eqb x c = false.
Proof.
  unfold not_char. intros H. apply negb_true_iff in H.
  now rewrite Ascii.eqb_sym.
Qed.

Lemma lit_head (old' : string) (o c : ascii) (s : string) :
  not_char o c = true -> match_lit (String o old') (String c s) = None.
Proof.
  intros H. unfold match_lit. now rewrite prefix_cons, (not_char_eqb _ _ H).
Qed.

Lemma digit_class_dot : forall c, is_digit c = true -> not_char "." c = true.
Proof. solve_class. Qed.

Lemma move_class_dot :
  forall c, is_move_char c = true -> not_char "." c = true.
Proof. solve_class. Qed.

Lemma three_dots_replaced (r b : string) :
  sub_go (match_lit "...") r (String "." (String "." (String "." b))) 0
  = (r ++ sub_go (match_lit "...") r b 0)%string.
Proof.
  rewrite (sub_go_match _ _ _ _ 2).
  - now rewrite !sub_go_skip_char.
  - unfold match_lit. now rewrite !prefix_cons, prefix_empty.
Qed.

Lemma periods_unified (plies : list ply) (tail : string) :
  forallb wf_ply plies = true ->
  str_replace "..." "." (layout export_dots (fun _ => "  ") plies tail)
  = layout (fun _ => ".") (fun _ => "  ") plies
      (str_replace "..." "." tail).
Proof.
  unfold str_replace. induction plies as [|p plies IH]; cbn [layout forallb];
    [reflexivity|].
  intros H. apply andb_true_iff in H as [Hp Hps].
  destruct (wf_ply_fields p Hp) as ((_ & Hnum) & (_ & Hmove) & _).
  rewrite sub_go_no_match_in
    by (apply (no_match_in_class _ (not_char "."));
        [intros c s; apply lit_head
        |exact (all_chars_impl _ _ _ digit_class_dot Hnum)]).
  f_equal.
  assert (Hrest :
    sub_go (match_lit "...") "."
      (String " " (ply_move p ++ "  "
                   ++ layout export_dots (fun _ => "  ") plies tail)) 0
    = String " " (ply_move p ++ "  "
                  ++ layout (fun _ => ".") (fun _ => "  ") plies
                       (sub_go (match_lit "...") "." tail 0))).
  { rewrite sub_go_step by reflexivity. f_equal.
    rewrite sub_go_no_match_in
      by (apply (no_match_in_class _ (not_char "."));
          [intros c s; apply lit_head
          |exact (all_chars_impl _ _ _ move_class_dot Hmove)]).
    f_equal. cbn [append]. rewrite !sub_go_step by reflexivity.
    now rewrite (IH Hps). }
  cbn [append] in Hrest.
  unfold export_dots at 1. destruct (ply_black p); cbn [append].
  - rewrite three_dots_replaced. cbn [append]. now rewrite Hrest.
  - rewrite sub_go_step by reflexivity. now rewrite Hrest.
Qed.

(** A literal that holds [z] and not [sep] does not begin in a text
    without [z] that is followed by [sep]. *)
Lemma prefix_blocked (old : string) (z sep : ascii) :
  forall w b,
    all_chars (not_char sep) old = true ->
    contains (String z "") old = true ->
    all_chars (not_char z) w = true ->
    prefix old (w ++ String sep b) = false.
Proof.
  induction old as [|o old IH]; intros w b Hsep Hz Hw.
  - discriminate Hz.
  - cbn [all_chars] in Hsep. apply andb_true_iff in Hsep as [Ho Hsep].
    destruct w as [|c w]; cbn [append]; rewrite prefix_cons.
    + unfold not_char in Ho. apply negb_true_iff in Ho. now rewrite Ho.
    + cbn [all_chars] in Hw. apply andb_true_iff in Hw as [Hc Hw].
      rewrite contains_char_eq in Hz. apply orb_true_iff in Hz as [Hz|Hz].
      * apply Ascii.eqb_eq in Hz. subst o.
        now rewrite (not_char_eqb _ _ Hc).
      * rewrite (IH w b Hsep Hz Hw). apply andb_false_r.
Qed.

Lemma lit_word_skipped (old r : string) (z sep : ascii) (w b : string) :
  all_chars (not_char sep) old = true ->
  contains (String z "") old = true ->
  all_chars (not_char z) w = true ->
  sub_go (match_lit old) r (w ++ String sep b) 0
  = (w ++ String sep (sub_go (match_lit old) r b 0))%string.
Proof.
  intros Hsep Hz Hw.
  assert (Hno : forall w', all_chars (not_char z) w' = true ->
                  match_lit old (w' ++ String sep b)%string = None).
  { intros w' Hw'. unfold match_lit.
    now rewrite (prefix_blocked old z sep w' b Hsep Hz Hw'). }
  rewrite sub_go_no_match_in.
  - rewrite sub_go_step; [reflexivity|]. exact (Hno "" eq_refl).
  - clear -Hw Hno. induction w as [|c w IH]; cbn [no_match_in]; [easy|].
    split; [now apply Hno|].
    cbn [all_chars] in Hw. apply andb_true_iff in Hw as [_ Hw].
    now apply IH.
Qed.

Lemma lit_sep_skipped (old r : string) (z sep : ascii) (b : string) :
  all_chars (not_char sep) old = true ->
  contains (String z "") old = true ->
  sub_go (match_lit old) r (String sep b) 0
  = String sep (sub_go (match_lit old) r b 0).
Proof.
  intros Hsep Hz. exact (lit_word_skipped old r z sep "" b Hsep Hz eq_refl).
Qed.

Lemma digit_class_dash : forall c, is_digit c = true -> not_char "-" c = true.
Proof. solve_class. Qed.

Lemma move_class_zero :
  forall c, is_move_char c = true -> not_char "0" c = true.
Proof. solve_class. Qed.

Lemma move_class_slash :
  forall c, is_move_char c = true -> not_char "/" c = true.
Proof. solve_class. Qed.

(** A literal with a dash and a character that no move holds, and
    with neither period nor space, is not found in the plies. *)
Lemma literal_not_in_plies (old : string) (z : ascii) (plies : list ply)
    (tail : string) :
  all_chars (not_char ".") old = true ->
  all_chars (not_char " ") old = true ->
  contains "-" old = true ->
  contains (String z "") old = true ->
  (forall c, is_move_char c = true -> not_char z c = true) ->
  forallb wf_ply plies = true ->
  str_replace old "" (layout (fun _ => ".") (fun _ => "  ") plies tail)
  = layout (fun _ => ".") (fun _ => "  ") plies (str_replace old "" tail).
Proof.
  intros Hdot Hsp Hdash Hz Hclass. unfold str_replace.
  induction plies as [|p plies IH]; cbn [layout forallb]; [reflexivity|].
  intros H. apply andb_true_iff in H as [Hp Hps].
  destruct (wf_ply_fields p Hp) as ((_ & Hnum) & (_ & Hmove) & _).
  cbn [append].
  rewrite (lit_word_skipped old "" "-" "." _ _ Hdot Hdash
             (all_chars_impl _ _ _ digit_class_dash Hnum)).
  rewrite (lit_sep_skipped old "" z " " _ Hsp Hz).
  rewrite (lit_word_skipped old "" z " " _ _ Hsp Hz
             (all_chars_impl _ _ _ Hclass Hmove)).
  rewrite (lit_sep_skipped old "" z " " _ Hsp Hz).
  now rewrite (IH Hps).
Qed.

Lemma results_removed (plies : list ply) (tail : string) :
  forallb wf_ply plies = true ->
  str_replace "1/2-1/2" ""
    (str_replace "0-1" ""
       (str_replace "1-0" ""
          (layout (fun _ => ".") (fun _ => "  ") plies tail)))
  = layout (fun _ => ".") (fun _ => "  ") plies
      (str_replace "1/2-1/2" ""
         (str_replace "0-1" "" (str_replace "1-0" "" tail))).
Proof.
  intros H.
  rewrite (literal_not_in_plies "1-0" "0" plies tail
             eq_refl eq_refl eq_refl eq_refl move_class_zero H).
  rewrite (literal_not_in_plies "0-1" "0" plies _
             eq_refl eq_refl eq_refl eq_refl move_class_zero H).
  now rewrite (literal_not_in_plies "1/2-1/2" "/" plies _
                 eq_refl eq_refl eq_refl eq_refl move_class_slash H).
Qed.

(* ================================================================== *)
(** ** The tokenizer on an export: the ends of the text *)

Lemma layout_joined (p : ply) (plies : list ply) (tail : string) :
  layout (fun _ => ".") (fun _ => "  ") (p :: plies) tail
  = joined "  " (p :: plies) ("  " ++ tail).
Proof.
  revert p. induction plies as [|q plies IH]; intros p; [reflexivity|].
  cbn [layout joined] in *. now rewrite IH.
Qed.

Lemma nonempty_app (w t : string) :
  nonempty w = true -> nonempty (w ++ t) = true.
Proof. now destruct w. Qed.

Lemma rstrip_cons_nonempty (P : ascii -> bool) (c : ascii) (s : string) :
  nonempty (rstrip P s) = true ->
  rstrip P (String c s) = String c (rstrip P s).
Proof. cbn [rstrip]. now destruct (rstrip P s). Qed.

Lemma rstrip_cons2_nonempty (P : ascii -> bool) (a b : ascii) (s : string) :
  nonempty (rstrip P s) = true ->
  rstrip P (String a (String b s)) = String a (String b (rstrip P s)).
Proof.
  intros H.
  rewrite (rstrip_cons_nonempty P a);
    rewrite (rstrip_cons_nonempty P b s H); reflexivity.
Qed.

Lemma rstrip_word (P : ascii -> bool) (w t : string) :
  all_chars (fun c => negb (P c)) w = true ->
  rstrip P (w ++ t) = (w ++ rstrip P t)%string.
Proof.
  induction w as [|c w IH]; cbn [all_chars append]; [reflexivity|].
  intros H. apply andb_true_iff in H as [Hc Hw].
  apply negb_true_iff in Hc. cbn [rstrip]. rewrite (IH Hw).
  destruct (w ++ rstrip P t)%string; [now rewrite Hc|reflexivity].
Qed.

Lemma nonempty_joined (gap : string) (p : ply) (plies : list ply)
    (tail : string) :
  nonempty (ply_number p) = true ->
  nonempty (joined gap (p :: plies) tail) = true.
Proof. intros H. cbn [joined]. now apply nonempty_app. Qed.

Section Strip.
Variable P : ascii -> bool.
Hypothesis P_digit : forall c, is_digit c = true -> negb (P c) = true.
Hypothesis P_move : forall c, is_move_char c = true -> negb (P c) = true.

Lemma rstrip_move (p : ply) (rest : string) :
  wf_ply p = true ->
  rstrip P (ply_move p ++ rest) = (ply_move p ++ rstrip P rest)%string
  /\ nonempty (ply_move p ++ rstrip P rest) = true.
Proof.
  intros Hp. destruct (wf_ply_fields p Hp) as (_ & (Hne & Hmove) & _).
  split; [|now apply nonempty_app].
  apply rstrip_word. exact (all_chars_impl _ _ _ P_move Hmove).
Qed.

Lemma rstrip_joined (plies : list ply) (tail : string) :
  forallb wf_ply plies = true ->
  rstrip P (joined "  " plies tail) = joined "  " plies (rstrip P tail).
Proof.
  induction plies as [|p plies IH]; cbn [forallb]; [reflexivity|].
  intros H. apply andb_true_iff in H as [Hp Hps].
  destruct (wf_ply_fields p Hp) as ((_ & Hnum) & _).
  cbn [joined].
  rewrite (rstrip_word P _ _ (all_chars_impl _ _ _ P_digit Hnum)).
  f_equal. cbn [append].
  assert (Hrest :
    forall rest rest',
      rstrip P rest = rest' ->
      rstrip P (String "." (String " " (ply_move p ++ rest)))
      = String "." (String " " (ply_move p ++ rest'))).
  { intros rest rest' <-.
    destruct (rstrip_move p rest Hp) as [E Hne].
    rewrite rstrip_cons2_nonempty; rewrite E; [reflexivity|exact Hne]. }
  destruct plies as [|q plies]; [now apply Hrest|].
  apply Hrest. cbn [append].
  cbn [forallb] in Hps. apply andb_true_iff in Hps as [Hq Hqs].
  assert (Hne : nonempty (rstrip P (joined "  " (q :: plies) tail)) = true).
  { rewrite IH by (cbn [forallb]; now rewrite Hq, Hqs).
    apply nonempty_joined.
    now destruct (wf_ply_fields q Hq) as ((Hn & _) & _). }
  rewrite (rstrip_cons2_nonempty _ _ _ _ Hne).
  rewrite IH by (cbn [forallb]; now rewrite Hq, Hqs). reflexivity.
Qed.

Lemma lstrip_joined (p : ply) (plies : list ply) (tail : string) :
  wf_ply p = true ->
  lstrip P (joined "  " (p :: plies) tail) = joined "  " (p :: plies) tail.
Proof.
  intros Hp. destruct (wf_ply_fields p Hp) as ((Hne & Hnum) & _).
  cbn [joined]. destruct (ply_number p) as [|d num]; [discriminate Hne|].
  cbn [all_chars] in Hnum. apply andb_true_iff in Hnum as [Hd _].
  apply P_digit, negb_true_iff in Hd. cbn [append lstrip]. now rewrite Hd.
Qed.

Lemma strip_joined (p : ply) (plies : list ply) (tail : string) :
  forallb wf_ply (p :: plies) = true ->
  strip P (joined "  " (p :: plies) tail)
  = joined "  " (p :: plies) (rstrip P tail).
Proof.
  intros H. unfold strip.
  rewrite lstrip_joined; [now apply rstrip_joined|].
  cbn [forallb] in H. now apply andb_true_iff in H as [Hp _].
Qed.

End Strip.

Lemma digit_class_nl : forall c, is_digit c = true -> negb (is_nl c) = true.
Proof. solve_class. Qed.

Lemma move_class_nl :
  forall c, is_move_char c = true -> negb (is_nl c) = true.
Proof. solve_class. Qed.

Lemma digit_class_space :
  forall c, is_digit c = true -> negb (is_space c) = true.
Proof. solve_class. Qed.

Lemma move_class_space :
  forall c, is_move_char c = true -> negb (is_space c) = true.
Proof. solve_class. Qed.

Lemma ends_stripped (p : ply) (plies : list ply) :
  forallb wf_ply (p :: plies) = true ->
  strip is_space
    (strip is_nl
       (layout (fun _ => ".") (fun _ => "  ") (p :: plies) (String nl "")))
  = joined "  " (p :: plies) "".
Proof.
  intros H. rewrite layout_joined.
  rewrite (strip_joined is_nl digit_class_nl move_class_nl _ _ _ H).
  now rewrite (strip_joined is_space digit_class_space move_class_space _ _ _ H).
Qed.

(* ================================================================== *)
(** ** The tokenizer on an export: the spaces and the split *)

Lemma ws_pair_head (c : ascii) (s : string) :
  negb (is_space c) = true -> match_ws_pair (String c s) = None.
Proof.
  intros H. apply negb_true_iff in H. unfold match_ws_pair.
  destruct s; [reflexivity|]. now rewrite H.
Qed.

Lemma ws_pair_single (a c : ascii) (s : string) :
  negb (is_space c) = true -> match_ws_pair (String a (String c s)) = None.
Proof.
  intros H. apply negb_true_iff in H. unfold match_ws_pair.
  now rewrite H, andb_false_r.
Qed.

Lemma ws_pair_word (r w rest : string) :
  all_chars (fun c => negb (is_space c)) w = true ->
  sub_go match_ws_pair r (w ++ rest) 0
  = (w ++ sub_go match_ws_pair r rest 0)%string.
Proof.
  intros Hw. apply sub_go_no_match_in.
  apply (no_match_in_class _ (fun c => negb (is_space c)));
    [apply ws_pair_head|exact Hw].
Qed.

Lemma spaces_collapsed (plies : list ply) :
  forallb wf_ply plies = true ->
  re_sub match_ws_pair " " (joined "  " plies "") = joined " " plies "".
Proof.
  unfold re_sub. induction plies as [|p plies IH]; cbn [forallb];
    [reflexivity|].
  intros H. apply andb_true_iff in H as [Hp Hps].
  destruct (wf_ply_fields p Hp) as ((_ & Hnum) & (Hne & Hmove) & _).
  cbn [joined].
  rewrite (ws_pair_word _ _ _ (all_chars_impl _ _ _ digit_class_space Hnum)).
  f_equal. cbn [append].
  rewrite sub_go_step by (apply ws_pair_head; reflexivity). f_equal.
  destruct (ply_move p) as [|c move] eqn:Em; [discriminate Hne|].
  assert (Hc : negb (is_space c) = true).
  { cbn [all_chars] in Hmove. apply andb_true_iff in Hmove as [Hc _].
    now apply move_class_space. }
  cbn [append]. rewrite (sub_go_step _ _ " " _ (ws_pair_single _ _ _ Hc)).
  f_equal.
  change (String c (move ++ ?x))%string with (String c move ++ x)%string.
  rewrite (ws_pair_word _ _ _ (all_chars_impl _ _ _ move_class_space Hmove)).
  f_equal. destruct plies as [|q plies]; [reflexivity|].
  cbn [append]. rewrite (sub_go_match _ _ _ _ 1) by reflexivity.
  rewrite sub_go_skip_char. cbn [append]. now rewrite (IH Hps).
Qed.

Lemma span_digits_number (num b : string) :
  all_chars is_digit num = true ->
  span_digits (num ++ String "." b) = (String.length num, String "." b).
Proof.
  induction num as [|d num IH]; cbn [all_chars append]; [reflexivity|].
  intros H. apply andb_true_iff in H as [Hd Hnum].
  cbn [span_digits String.length]. now rewrite Hd, (IH Hnum).
Qed.

Lemma match_number_dot_number (d : ascii) (num rest : string) :
  all_chars is_digit (String d num) = true ->
  match_number_dot (String d (num ++ String "." (String " " rest)))
  = Some (S (String.length num + 1 + 1)).
Proof.
  intros H. unfold match_number_dot.
  change (String d (num ++ ?x))%string with (String d num ++ x)%string.
  rewrite (span_digits_number _ _ H). reflexivity.
Qed.

Lemma match_move_number_head (d : ascii) (num rest : string) :
  all_chars is_digit (String d num) = true ->
  match_move_number (String d (num ++ String "." (String " " rest)))
  = Some (S (String.length num + 1 + 1)).
Proof.
  intros H. unfold match_move_number.
  assert (Hd : is_space d = false).
  { cbn [all_chars] in H. apply andb_true_iff in H as [Hd _].
    now apply digit_not_space. }
  rewrite Hd. now apply match_number_dot_number.
Qed.

Lemma match_move_number_space (d : ascii) (num rest : string) :
  all_chars is_digit (String d num) = true ->
  match_move_number
    (String " " (String d (num ++ String "." (String " " rest))))
  = Some (S (S (String.length num + 1 + 1))).
Proof.
  intros H. unfold match_move_number.
  change (is_space " ") with true. cbv iota.
  now rewrite (match_number_dot_number _ _ _ H).
Qed.

Lemma match_number_dot_none (s : string) :
  prefix "." (snd (span_digits s)) = false -> match_number_dot s = None.
Proof.
  unfold match_number_dot.
  destruct (span_digits s) as [[|k] [|c r]]; try reflexivity.
  cbn [snd]. rewrite prefix_cons, prefix_empty, andb_true_r.
  char_cases c; try reflexivity. vm_compute. discriminate.
Qed.

Lemma span_digits_word (w rest : string) :
  all_chars (not_char ".") w = true ->
  prefix "." (snd (span_digits rest)) = false ->
  prefix "." (snd (span_digits (w ++ rest))) = false.
Proof.
  intros Hw Hrest. induction w as [|c w IH]; [exact Hrest|].
  cbn [all_chars] in Hw. apply andb_true_iff in Hw as [Hc Hw].
  cbn [append span_digits]. destruct (is_digit c).
  - specialize (IH Hw). now destruct (span_digits (w ++ rest)).
  - cbn [snd]. rewrite prefix_cons, (not_char_eqb _ _ Hc). reflexivity.
Qed.

(** No move number begins in a move that is followed by a space or by
    the end of the text. *)
Lemma move_holds_no_number (w rest : string) :
  all_chars is_move_char w = true ->
  prefix "." (snd (span_digits rest)) = false ->
  no_match_in match_move_number w rest.
Proof.
  intros Hw Hrest. induction w as [|c w IH]; cbn [no_match_in]; [easy|].
  assert (Hw' := Hw). cbn [all_chars] in Hw'.
  apply andb_true_iff in Hw' as [Hc Hw'].
  split; [|now apply IH].
  cbn [append]. unfold match_move_number.
  apply move_class_space, negb_true_iff in Hc. rewrite Hc.
  apply match_number_dot_none.
  change (String c (w ++ rest))%string with (String c w ++ rest)%string.
  apply span_digits_word; [|exact Hrest].
  exact (all_chars_impl _ _ _ move_class_dot Hw).
Qed.

Lemma split_after_number (p : ply) (plies : list ply) :
  forallb wf_ply (p :: plies) = true ->
  split_go match_move_number (ply_move p ++ after_move plies) 0
  = map ply_move (p :: plies).
Proof.
  revert p. induction plies as [|q plies IH]; intros p H;
    cbn [forallb] in H; apply andb_true_iff in H as [Hp Hps];
    destruct (wf_ply_fields p Hp) as (_ & (_ & Hmove) & _).
  - cbn [after_move map].
    rewrite (split_go_no_match_in _ _ _ "" []
               (move_holds_no_number (ply_move p) "" Hmove eq_refl) eq_refl).
    now rewrite append_empty_r.
  - assert (Hq : wf_ply q = true).
    { cbn [forallb] in Hps. now apply andb_true_iff in Hps as [Hq _]. }
    destruct (wf_ply_fields q Hq) as ((Hne & Hnum) & _).
    assert (Hafter :
      split_go match_move_number (after_move (q :: plies)) 0
      = "" :: map ply_move (q :: plies)).
    { cbn [after_move joined append].
      destruct (ply_number q) as [|d num]; [discriminate Hne|].
      cbn [append].
      rewrite (split_go_match _ _ _ _ (match_move_number_space d num _ Hnum)).
      rewrite split_go_skip_char, <- Nat.add_assoc, split_go_skip.
      cbn [plus]. rewrite !split_go_skip_char.
      f_equal. exact (IH q Hps). }
    rewrite (split_go_no_match_in _ _ _ _ _
               (move_holds_no_number (ply_move p) (after_move (q :: plies))
                  Hmove eq_refl) Hafter).
    now rewrite append_empty_r.
Qed.

Lemma plies_split (p : ply) (plies : list ply) :
  forallb wf_ply (p :: plies) = true ->
  re_split match_move_number (joined " " (p :: plies) "")
  = "" :: map ply_move (p :: plies).
Proof.
  intros H. assert (H' := H). cbn [forallb] in H'.
  apply andb_true_iff in H' as [Hp _].
  destruct (wf_ply_fields p Hp) as ((Hne & Hnum) & _).
  unfold re_split. cbn [joined].
  destruct (ply_number p) as [|d num]; [discriminate Hne|].
  cbn [append].
  rewrite (split_go_match _ _ _ _ (match_move_number_head d num _ Hnum)).
  rewrite <- Nat.add_assoc, split_go_skip.
  cbn [plus]. rewrite !split_go_skip_char.
  f_equal. exact (split_after_number p plies H).
Qed.

(* ================================================================== *)
(** ** The tokenizer on an export: the header, and the whole *)

Lemma blank_line_after_word (w rest : string) :
  all_chars (fun c => negb (is_nl c)) w = true ->
  contains blank_line (w ++ rest) = contains blank_line rest.
Proof.
  induction w as [|c w IH]; cbn [all_chars append]; [reflexivity|].
  intros H. apply andb_true_iff in H as [Hc Hw].
  apply negb_true_iff in Hc. unfold is_nl in Hc.
  cbn [contains]. unfold blank_line at 1.
  rewrite prefix_cons, Ascii.eqb_sym, Hc. cbn [andb orb]. now apply IH.
Qed.

Lemma clock_class_nl :
  forall c, is_clock_char c = true -> negb (is_nl c) = true.
Proof.
  intros c H. unfold is_clock_char in H. now apply andb_true_iff in H as [H _].
Qed.

Lemma blank_line_after_plies (plies : list ply) (tail : string) :
  forallb wf_ply plies = true ->
  contains blank_line (layout export_dots export_annot plies tail)
  = contains blank_line tail.
Proof.
  induction plies as [|p plies IH]; cbn [layout forallb]; [reflexivity|].
  intros H. apply andb_true_iff in H as [Hp Hps].
  destruct (wf_ply_fields p Hp) as ((_ & Hnum) & (_ & Hmove) & (_ & Hclock)).
  rewrite (blank_line_after_word _ _ (all_chars_impl _ _ _ digit_class_nl Hnum)).
  rewrite (blank_line_after_word (export_dots p))
    by (unfold export_dots; now destruct (ply_black p)).
  rewrite (blank_line_after_word " ") by reflexivity.
  rewrite (blank_line_after_word _ _ (all_chars_impl _ _ _ move_class_nl Hmove)).
  rewrite (blank_line_after_word (export_annot p)); [now apply IH|].
  unfold export_annot. rewrite !all_chars_app.
  now rewrite (all_chars_impl _ _ _ clock_class_nl Hclock).
Qed.

Lemma header_holds_no_blank_line (header rest : string) :
  contains blank_line (header ++ String nl "") = false ->
  no_match_in (match_lit blank_line) header (String nl rest).
Proof.
  induction header as [|c header IH]; cbn [append contains no_match_in];
    [easy|].
  intros H. apply orb_false_iff in H as [Hp Hc].
  split; [|now apply IH].
  unfold match_lit. cbn [append].
  replace (prefix blank_line (String c (header ++ String nl rest)))
    with (prefix blank_line (String c (header ++ String nl "")));
    [now rewrite Hp|].
  unfold blank_line. rewrite !prefix_cons. f_equal.
  destruct header; cbn [append]; now rewrite !prefix_cons, !prefix_empty.
Qed.

Lemma header_split (header text : string) :
  contains blank_line (header ++ String nl "") = false ->
  contains blank_line text = false ->
  str_split blank_line (header ++ blank_line ++ text) = [header; text].
Proof.
  intros Hh Ht. unfold str_split.
  rewrite (split_go_no_match_in _ header _ "" [text]).
  - now rewrite append_empty_r.
  - exact (header_holds_no_blank_line header (String nl text) Hh).
  - unfold blank_line at 2. cbn [append].
    rewrite (split_go_match _ _ _ 1).
    + rewrite split_go_skip_char. f_equal.
      exact (split_without_separator _ _ _ Ht).
    + unfold match_lit, blank_line.
      now rewrite !prefix_cons, prefix_empty, Ascii.eqb_refl.
Qed.

Lemma result_removed (result : string) :
  In result results ->
  contains blank_line (result ++ String nl "") = false
  /\ str_replace "1/2-1/2" ""
       (str_replace "0-1" ""
          (str_replace "1-0" ""
             (str_replace "..." "."
                (re_sub match_annotation "" (result ++ String nl "")))))
     = String nl "".
Proof. intros [<-|[<-|[<-|[]]]]; split; reflexivity. Qed.

Lemma export_tokens (header : string) (plies : list ply)
    (result : string) :
  contains blank_line (header ++ String nl "") = false ->
  forallb wf_ply plies = true ->
  In result results ->
  _get_moves_list (export_text header plies result)
  = inr (map ply_move plies).
Proof.
  intros Hh Hp Hr. destruct (result_removed result Hr) as [Hb Htail].
  unfold _get_moves_list, export_text.
  rewrite header_split; [|exact Hh|now rewrite blank_line_after_plies].
  cbn [nth_error]. cbv zeta.
  rewrite (annotations_removed _ _ Hp), (periods_unified _ _ Hp),
    (results_removed _ _ Hp), Htail.
  destruct plies as [|p plies]; [reflexivity|].
  rewrite (ends_stripped _ _ Hp), (spaces_collapsed _ Hp),
    (plies_split _ _ Hp).
  reflexivity.
Qed.

(** X14. On the record of a game made of a header, a blank line and
    the move text of the server (for each ply its number, one period
    or three, the move and an annotation in braces, then the result
    and a line feed), [_get_moves_list] returns the moves of the
    plies, in their order. *)
Theorem export_tokenized_to_its_moves (header : string) (plies : list ply)
    (result : string) :
  contains blank_line (header ++ String nl "") = false ->
  forallb wf_ply plies = true ->
  In result results ->
  _get_moves_list (export_text header plies result)
  = inr (map ply_move plies).
Proof.
  intros Hh Hp Hr. destruct (result_removed result Hr) as [Hb Htail].
  unfold _get_moves_list, export_text.
  rewrite header_split; [|exact Hh|now rewrite blank_line_after_plies].
  cbn [nth_error]. cbv zeta.
  rewrite (annotations_removed _ _ Hp), (periods_unified _ _ Hp),
    (results_removed _ _ Hp), Htail.
  destruct plies as [|p plies]; [reflexivity|].
  rewrite (ends_stripped _ _ Hp), (spaces_collapsed _ Hp),
    (plies_split _ _ Hp).
  reflexivity.
Qed.

Lemma export_tokenized_to_its_moves_witness :
  _get_moves_list
    (export_text ("[Event x]" ++ String nl "[Site y]")
       [ mkPly "1" false "e4" "[%clk 0:09:59.9]";
         mkPly "1" true "Nf6" "[%clk 0:09:58]";
         mkPly "2" false "Qg4" "[%clk 0:09:50.1]";
         mkPly "2" true "Nxg4" "[%clk 0:09:41]";
         mkPly "3" false "O-O" "[%clk 0:09:30]" ]
       "0-1")
  = inr ["e4"; "Nf6"; "Qg4"; "Nxg4"; "O-O"].
Proof.
  apply (export_tokenized_to_its_moves ("[Event x]" ++ String nl "[Site y]")
           [ mkPly "1" false "e4" "[%clk 0:09:59.9]";
             mkPly "1" true "Nf6" "[%clk 0:09:58]";
             mkPly "2" false "Qg4" "[%clk 0:09:50.1]";
             mkPly "2" true "Nxg4" "[%clk 0:09:41]";
             mkPly "3" false "O-O" "[%clk 0:09:30]" ]
           "0-1").
  - reflexivity.
  - reflexivity.
  - cbn. tauto.
Defined.

(* ================================================================== *)
(** ** The report *)

Lemma prefix_app_r (n h t : string) :
  prefix n h = true -> prefix n (h ++ t) = true.
Proof.
  revert h. induction n as [|a n IH]; intros h H; [apply prefix_empty|].
  destruct h as [|c h]; [discriminate H|].
  cbn [append]. rewrite prefix_cons in *.
  apply andb_true_iff in H as [Ha Hn]. now rewrite Ha, (IH h Hn).
Qed.

Lemma contains_app_r (n h t : string) :
  contains n h = true -> contains n (h ++ t) = true.
Proof.
  induction h as [|c h IH]; cbn [contains]; intros H.
  - rewrite orb_false_r in H. destruct n; [|discriminate H].
    destruct t; reflexivity.
  - cbn [append contains]. apply orb_true_iff in H as [H|H].
    + change (String c (h ++ t))%string with (String c h ++ t)%string.
      now rewrite (prefix_app_r _ _ t H).
    + rewrite (IH H). apply orb_true_r.
Qed.

Lemma header_split_more (header rest : string) :
  contains blank_line (header ++ String nl "") = false ->
  str_split blank_line (header ++ blank_line ++ rest)
  = header :: str_split blank_line rest.
Proof.
  intros Hh. unfold str_split.
  destruct (split_go (match_lit blank_line) rest 0) as [|t ts] eqn:E;
    [now apply split_go_not_nil in E|].
  rewrite (split_go_no_match_in _ header _ "" (t :: ts)).
  - now rewrite append_empty_r.
  - exact (header_holds_no_blank_line header (String nl rest) Hh).
  - unfold blank_line at 2. cbn [append].
    rewrite (split_go_match _ _ _ 1).
    + rewrite split_go_skip_char. now f_equal.
    + unfold match_lit, blank_line.
      now rewrite !prefix_cons, prefix_empty, Ascii.eqb_refl.
Qed.

(** X15. Only the text between the first blank line and the second is
    tokenized: what follows a second blank line is not read. *)
Theorem text_after_second_blank_line_not_read (header text rest : string) :
  contains blank_line (header ++ String nl "") = false ->
  contains blank_line (text ++ String nl "") = false ->
  _get_moves_list (header ++ blank_line ++ text ++ blank_line ++ rest)
  = _get_moves_list (header ++ blank_line ++ text).
Proof.
  intros Hh Ht.
  assert (Ht' : contains blank_line text = false).
  { destruct (contains blank_line text) eqn:E; [|reflexivity].
    apply (contains_app_r _ _ (String nl "")) in E. congruence. }
  unfold _get_moves_list.
  rewrite (header_split_more header (text ++ blank_line ++ rest) Hh).
  rewrite (header_split_more text rest Ht).
  rewrite (header_split header text Hh Ht').
  reflexivity.
Qed.

Lemma text_after_second_blank_line_not_read_witness :
  _get_moves_list
    ("[Event x]" ++ blank_line ++ "1. e4 1... e5 1-0" ++ blank_line
     ++ "2. Nf3 2... Nc6")
  = _get_moves_list ("[Event x]" ++ blank_line ++ "1. e4 1... e5 1-0").
Proof.
  apply (text_after_second_blank_line_not_read "[Event x]"
           "1. e4 1... e5 1-0" "2. Nf3 2... Nc6");
    reflexivity.
Defined.

Lemma moves_list_defined (text : string) :
  contains blank_line text = true ->
  exists moves, _get_moves_list text = inr moves.
Proof.
  intros H. unfold _get_moves_list, blank_line.
  destruct (split_with_separator _ _ _ H) as (t & u & l & E).
  rewrite E. cbn [nth_error]. now eexists.
Qed.

Lemma moves_list_index_error (text : string) :
  contains blank_line text = false ->
  _get_moves_list text = inl IndexError.
Proof.
  intros H. unfold _get_moves_list, blank_line.
  now rewrite (split_without_separator _ _ _ H).
Qed.

Section ReportFacts.
Context {game : Type} `{Game game}.

Lemma report_app (games games' : list game) :
  _collect_botez_gambits (games ++ games')
  = match _collect_botez_gambits games with
    | (out, Some e) => (out, Some e)
    | (out, None) =>
        let (out', e) := _collect_botez_gambits games' in (out ++ out', e)
    end.
Proof.
  induction games as [|g games IH]; cbn [app _collect_botez_gambits].
  - now destruct (_collect_botez_gambits games').
  - destruct (_get_moves_list (pgn g)) as [e|moves]; [reflexivity|].
    rewrite IH.
    destruct (_collect_botez_gambits games) as [out [e|]]; [reflexivity|].
    destruct (_collect_botez_gambits games') as [out' e'].
    now rewrite app_assoc.
Qed.

(** X16. A game whose record holds no blank line ends the report with
    [IndexError]: what was printed for the games before it stays, and
    the games after it are not examined. *)
Theorem report_ends_at_record_without_blank_line (before after : list game)
    (g : game) :
  snd (_collect_botez_gambits before) = None ->
  contains blank_line (pgn g) = false ->
  _collect_botez_gambits (before ++ g :: after)
  = (fst (_collect_botez_gambits before), Some IndexError).
Proof.
  intros Hb Hg. rewrite report_app.
  destruct (_collect_botez_gambits before) as [out e]. cbn [fst snd] in *.
  subst e. cbn [_collect_botez_gambits].
  rewrite (moves_list_index_error (pgn g) Hg).
  now rewrite app_nil_r.
Qed.

(** X17. The report comes to its end without exception when, and only
    when, the record of every game holds a blank line. *)
Theorem report_completes_iff (games : list game) :
  snd (_collect_botez_gambits games) = None
  <-> Forall (fun g => contains blank_line (pgn g) = true) games.
Proof.
  induction games as [|g games IH]; cbn [_collect_botez_gambits].
  - split; [constructor|reflexivity].
  - destruct (contains blank_line (pgn g)) eqn:E.
    + destruct (moves_list_defined _ E) as (moves & ->).
      destruct (_collect_botez_gambits games) as [out e]. cbn [snd] in *.
      rewrite IH. split; [now constructor|now inversion 1].
    + rewrite (moves_list_index_error _ E). cbn [snd].
      split; [discriminate|]. inversion 1; congruence.
Qed.

(** X18. For a game whose record is an export of the server, the
    report prints the three lines of the game when the detector has a
    finding on the moves of its plies, and nothing otherwise, and goes
    on with the next game. *)
Theorem report_of_export (g : game) (games : list game) (header : string)
    (plies : list ply) (result : string) :
  pgn g = export_text header plies result ->
  contains blank_line (header ++ String nl "") = false ->
  forallb wf_ply plies = true ->
  In result results ->
  _collect_botez_gambits (g :: games)
  = (match _get_botez_gambit (map ply_move plies) with
     | Some finding => report g finding
     | None => []
     end ++ fst (_collect_botez_gambits games),
     snd (_collect_botez_gambits games)).
Proof.
  intros Hg Hh Hp Hr. cbn [_collect_botez_gambits].
  rewrite Hg, (export_tokens _ _ _ Hh Hp Hr).
  now destruct (_collect_botez_gambits games).
Qed.

End ReportFacts.

Lemma report_ends_at_record_without_blank_line_witness :
  _collect_botez_gambits
    ([mkGame "vaseka" "DK97" "u1" ("h" ++ blank_line ++ "1. e4 1... e5 1-0")]
     ++ mkGame "DK97" "vaseka" "u2" "1. e4 e5"
     :: [mkGame "vaseka" "DK97" "u3" ("h" ++ blank_line ++ "1. d4 1-0")])
  = ([], Some IndexError).
Proof.
  exact (report_ends_at_record_without_blank_line
           [mkGame "vaseka" "DK97" "u1"
              ("h" ++ blank_line ++ "1. e4 1... e5 1-0")]
           [mkGame "vaseka" "DK97" "u3" ("h" ++ blank_line ++ "1. d4 1-0")]
           (mkGame "DK97" "vaseka" "u2" "1. e4 e5") eq_refl eq_refl).
Defined.

Lemma report_of_export_witness :
  let plies :=
    [ mkPly "1" false "e4" "[%clk 0:09:59.9]";
      mkPly "1" true "Nf6" "[%clk 0:09:58]";
      mkPly "2" false "Qg4" "[%clk 0:09:50.1]";
      mkPly "2" true "Nxg4" "[%clk 0:09:41]";
      mkPly "3" false "a3" "[%clk 0:09:30]" ] in
  let g := mkGame "vaseka" "DK97" "https://www.chess.com/game/live/1"
             (export_text "[Event x]" plies "0-1") in
  _collect_botez_gambits [g]
  = ([ Line "=== vaseka vs DK97 ===";
       Line "https://www.chess.com/game/live/1";
       Pair (2, "Nxg4") ], None).
Proof.
  intros plies g.
  exact (report_of_export g [] "[Event x]" plies "0-1"
           eq_refl eq_refl eq_refl (or_intror (or_introl eq_refl))).
Defined.
